(** * EduVerse: operational scripts and UI handlers, verified

    A shallow embedding of the repository's executable pieces:

    - [.github/workflows/check_base-branch.yml]: the bash step that
      accepts or rejects a pull request from its base and head branch;
    - [core/static/core/js/password_toggle.js] and the bundled site
      script: the password-visibility toggle and the hero slideshow;
    - [undo_migrations.sh]: the migration-reset procedure;
    - the dashboard part of the site script (sidebar and user menu) and
      the listeners the scripts install;
    - [.github/workflows/django-test-cases.yml] and its production
      twin: the two steps that install the dependencies and run the
      tests.

    Strings are [string], bash exit statuses are [Z], a DOM class list
    is the ordered token list a [DOMTokenList] holds, the working
    directory is a finite map from relative paths to nodes. *)

From stdpp Require Import gmap strings list fin_maps.
From Stdlib Require Import Ascii ZArith Lia.

Open Scope string_scope.
Open Scope list_scope.

(** ** Strings as bash sees them *)

Module Str.

(** [contains needle hay]: [needle] occurs in [hay] as a contiguous
    substring. This is what [[[ hay =~ "needle" ]]] tests when the right
    operand is quoted (the pattern is then matched literally), and what
    [grep] tests for a pattern without metacharacters. *)
Fixpoint contains (needle hay : string) : bool :=
  String.prefix needle hay ||
  match hay with
  | EmptyString => false
  | String _ hay' => contains needle hay'
  end.

(** The character [c] occurs in [s]. *)
Fixpoint has_char (c : ascii) (s : string) : bool :=
  match s with
  | EmptyString => false
  | String a s' => Ascii.eqb a c || has_char c s'
  end.

Definition space : ascii := " "%char.

(** A word in the sense of git's ref-name rules: no space inside. *)
Definition no_space (s : string) : Prop := has_char space s = false.

(** Elements joined by a single space: the value of ["${arr[*]}"], and
    of ["${arr[@]}"] where no word splitting happens (inside [[[ ]]]). *)
Fixpoint join_sp (l : list string) : string :=
  match l with
  | [] => ""
  | [x] => x
  | x :: l' => x +:+ " " +:+ join_sp l'
  end.

(** The same haystack, built token by token: every token preceded by a
    space, and one closing space. *)
Fixpoint spaced (l : list string) : string :=
  match l with
  | [] => " "
  | x :: l' => " " +:+ x +:+ spaced l'
  end.

End Str.

(** ** The base-branch check ([check_base-branch.yml], step "Check Base Branch") *)

Module BaseBranch.
Import Str.

(** [allowed_head_branches=("development/core" ...)] *)
Definition allowed_head_branches : list string :=
  ["development/core"; "development/parent";
   "development/teacher"; "development/student"].

(** What the step leaves behind: the lines it echoed and its exit status
    (the job fails exactly when the status is not 0). *)
Record outcome := Outcome { stdout : list string; exit_status : Z }.

(** The [run:] script. [base_branch] and [head_branch] are the two
    strings [jq] extracted from the event payload.

    - [[[ "$base_branch" == "production" ]]] and [[[ "$head_branch" != "dev" ]]]
      compare against quoted, hence literal, strings;
    - [[[ ! " ${allowed_head_branches[@]} " =~ " $head_branch " ]]] asks
      whether the quoted right operand occurs literally inside the
      space-joined array padded with one space on both sides;
    - an [if] none of whose branches runs has status 0. *)
Definition check_base_branch (base_branch head_branch : string) : outcome :=
  if String.eqb base_branch "production" then
    if negb (String.eqb head_branch "dev") then
      Outcome
        ["Error: Pull requests to production branch can only be from the dev branch."]
        1
    else Outcome [] 0
  else if String.eqb base_branch "dev" then
    if negb (contains (" " +:+ head_branch +:+ " ")
                      (" " +:+ join_sp allowed_head_branches +:+ " ")) then
      Outcome
        ["Error: Pull requests to dev branch must be from one of the following branches: "
           +:+ join_sp allowed_head_branches]
        1
    else Outcome [] 0
  else Outcome [] 0.

(** The workflow accepts the pull request. *)
Definition accepted (base_branch head_branch : string) : Prop :=
  exit_status (check_base_branch base_branch head_branch) = 0%Z.

(** The branch policy with the head branch compared by name. *)
Definition policy_exact (base_branch head_branch : string) : Prop :=
  (base_branch = "production" → head_branch = "dev") ∧
  (base_branch = "dev" → head_branch ∈ allowed_head_branches).

(** The branch policy in the specification's words: towards [dev], a
    head branch is also fine when one of the four names is a prefix
    of it. *)
Definition policy_prefix (base_branch head_branch : string) : Prop :=
  (base_branch = "production" → head_branch = "dev") ∧
  (base_branch = "dev" →
   ∃ p, p ∈ allowed_head_branches ∧ String.prefix p head_branch = true).

End BaseBranch.

(** ** DOM class lists ([DOMTokenList]) and JavaScript numbers *)

Module Dom.

(** The tokens of an element's [classList], in order. *)
Definition classList := list string.

(** [classList.remove(token)] *)
Definition remove (token : string) (cl : classList) : classList :=
  filter (λ t, t ≠ token) cl.

(** [classList.add(token)]: appended unless already there. *)
Definition add (token : string) (cl : classList) : classList :=
  if decide (token ∈ cl) then cl else (cl ++ [token]).

(** [classList.toggle(token)] *)
Definition toggle (token : string) (cl : classList) : classList :=
  if decide (token ∈ cl) then remove token cl else (cl ++ [token]).

(** [classList.toggle(token, force)] *)
Definition toggle_force (token : string) (force : bool) (cl : classList) : classList :=
  if force then add token cl else remove token cl.

(** The values a counter such as [currentSlide] takes: a natural number,
    or [NaN] once a remainder by zero has been taken. *)
Inductive number := Num (n : nat) | NaN.

(** [x + 1] *)
Definition succ (x : number) : number :=
  match x with Num n => Num (S n) | NaN => NaN end.

(** [x % len], for an array length [len]. *)
Definition rem (x : number) (len : nat) : number :=
  match x, len with
  | Num _, 0 => NaN
  | Num n, _ => Num (n mod len)
  | NaN, _ => NaN
  end.

(** [i === index] for an array index [i]. *)
Definition strict_eq (i : nat) (index : number) : bool :=
  match index with Num k => Nat.eqb i k | NaN => false end.

End Dom.

(** ** The password-visibility toggle ([password_toggle.js]) *)

Module PasswordToggle.
Import Dom.

(** The four elements the script looks up: the [type] of the two inputs,
    and the class list of the [<i>] inside each button ([None] when the
    button has no [<i>], so that [querySelector('i')] is [null]). *)
Record page := Page {
  passwordField : string;
  confirmPasswordField : string;
  togglePassword_i : option classList;
  toggleConfirmPassword_i : option classList
}.

(** How a handler ends. *)
Inductive completion := Normal | TypeError.

(** The click handler of [togglePassword]. The field's type is written
    before the icon is looked up, so it is flipped even when the lookup
    then throws. *)
Definition togglePassword_click (p : page) : page * completion :=
  let type := if String.eqb (passwordField p) "password" then "text" else "password" in
  match togglePassword_i p with
  | None =>
      (Page type (confirmPasswordField p) None (toggleConfirmPassword_i p), TypeError)
  | Some cl =>
      (Page type (confirmPasswordField p)
            (Some (toggle "fa-eye-slash" (toggle "fa-eye" cl)))
            (toggleConfirmPassword_i p),
       Normal)
  end.

(** The click handler of [toggleConfirmPassword]. *)
Definition toggleConfirmPassword_click (p : page) : page * completion :=
  let type := if String.eqb (confirmPasswordField p) "password" then "text" else "password" in
  match toggleConfirmPassword_i p with
  | None =>
      (Page (passwordField p) type (togglePassword_i p) None, TypeError)
  | Some cl =>
      (Page (passwordField p) type (togglePassword_i p)
            (Some (toggle "fa-eye-slash" (toggle "fa-eye" cl))),
       Normal)
  end.

End PasswordToggle.

(** ** The hero slideshow (site script, "Hero section animation") *)

Module Slideshow.
Import Dom.

(** The closure's state: the static [NodeList] returned by
    [querySelectorAll(".hero-slide")], as the class list of each slide,
    and the counter. *)
Record hero := Hero { slides : list classList; currentSlide : number }.

(** [showSlide(index)] *)
Definition showSlide (index : number) (sl : list classList) : list classList :=
  imap (λ i slide,
          toggle_force "opacity-0" (negb (strict_eq i index))
            (toggle_force "opacity-100" (strict_eq i index) slide)) sl.

(** [nextSlide()] *)
Definition nextSlide (h : hero) : hero :=
  let cur := rem (succ (currentSlide h)) (length (slides h)) in
  Hero (showSlide cur (slides h)) cur.

(** The state when the [DOMContentLoaded] handler has run. *)
Definition loaded (sl : list classList) : hero := Hero sl (Num 0).

(** The state after [n] timer ticks. *)
Definition ticks (n : nat) (h : hero) : hero := Nat.iter n nextSlide h.

(** Slide [k] is the shown one: it alone carries [opacity-100], and all
    the others carry [opacity-0]. *)
Definition shows (k : nat) (sl : list classList) : Prop :=
  ∀ i cl, sl !! i = Some cl →
    ("opacity-100" ∈ cl ↔ i = k) ∧ ("opacity-0" ∈ cl ↔ i ≠ k).

Definition slide_invariant (h : hero) : Prop :=
  ∃ k, currentSlide h = Num k ∧ k < length (slides h) ∧ shows k (slides h).

End Slideshow.

(** ** The working directory *)

Module Fs.

(** A path relative to the working directory, component by component;
    [[]] is the working directory itself. *)
Abbreviation path := (list string).

Inductive node := File (content : string) | Dir.

Global Instance node_eq_dec : EqDecision node.
Proof. solve_decision. Defined.

(** The tree below the working directory: every file and directory other
    than the root has an entry. Symbolic links, permissions and what
    lies outside the working directory are not represented. *)
Abbreviation FS := (gmap path node).

(** [test -f p] *)
Definition is_file (fs : FS) (p : path) : bool :=
  match fs !! p with Some (File _) => true | _ => false end.

(** [test -d p] *)
Definition is_dir (fs : FS) (p : path) : bool :=
  match p with
  | [] => true
  | _ => match fs !! p with Some Dir => true | _ => false end
  end.

(** [rm -f p]: a file is unlinked, a missing target is not an error, a
    directory is refused. The new tree and the exit status. *)
Definition rm_f (p : path) (fs : FS) : FS * Z :=
  match fs !! p with
  | Some (File _) => (delete p fs, 0%Z)
  | Some Dir => (fs, 1%Z)
  | None => (fs, 0%Z)
  end.

(** [rm p]: as [rm -f p], but a missing target is an error. *)
Definition rm (p : path) (fs : FS) : FS * Z :=
  match fs !! p with
  | Some (File _) => (delete p fs, 0%Z)
  | Some Dir => (fs, 1%Z)
  | None => (fs, 1%Z)
  end.

(** [rm -rf p/]: a directory goes with everything below it; with the
    trailing slash, a missing target and a target that is a file are
    both passed over in silence. The path is taken not to start with a
    dash: the script passes it without [--], and [rm] would read such a
    path as options and delete nothing. *)
Definition rm_rf (p : path) (fs : FS) : FS * Z :=
  match fs !! p with
  | Some Dir => (filter (λ kv, ¬ p `prefix_of` kv.1) fs, 0%Z)
  | _ => (fs, 0%Z)
  end.

(** Every directory [find . -type d] visits, the starting point first. *)
Definition directories (fs : FS) : list path :=
  [] :: (filter (λ kv, kv.2 = Dir) (map_to_list fs)).*1.

(** [-path "./.venv/*"]: strictly below [./.venv]. *)
Definition in_venv (d : path) : bool :=
  match d with
  | first :: _ :: _ => String.eqb first ".venv"
  | _ => false
  end.

(** The tests [find] applies to a directory before printing it:
    [-not -path "./.venv/*" -exec test -f '{}/__init__.py' \;
     ! -exec test -f '{}/settings.py' \;] *)
Definition candidate (fs : FS) (d : path) : bool :=
  negb (in_venv d)
  && is_file fs (d ++ ["__init__.py"])
  && negb (is_file fs (d ++ ["settings.py"])).

(** [-printf '%P\n' | cut -d '/' -f 1]: the first component of the path
    below the starting point, empty for the starting point itself. *)
Definition first_field (d : path) : string :=
  match d with
  | [] => ""
  | first :: _ => first
  end.

(** [sort -u]: one line of each kind, here in the bytewise order of the
    C locale. Under another [LC_COLLATE] the same lines come out in
    another order. *)
Fixpoint insert_u (x : string) (l : list string) : list string :=
  match l with
  | [] => [x]
  | y :: l' =>
      match String.compare x y with
      | Lt => x :: l
      | Eq => l
      | Gt => y :: insert_u x l'
      end
  end.

Definition sort_u (l : list string) : list string := foldr insert_u [] l.

(** The lines of [my_apps]:
    [find . -type d ... -printf '%P\n' | cut -d '/' -f 1 | sort -u]. *)
Definition find_my_apps (fs : FS) : list string :=
  sort_u (first_field <$> filter (λ d, candidate fs d = true) (directories fs)).

(** Ownership in the specification's words: a top-level directory other
    than [.venv] that holds [__init__.py] and no [settings.py]. *)
Definition owned_top_level (fs : FS) (name : string) : Prop :=
  name ≠ ".venv" ∧ fs !! [name] = Some Dir ∧
  is_file fs [name; "__init__.py"] = true ∧
  is_file fs [name; "settings.py"] = false.

End Fs.

(** ** Lines and words of the script's variables *)

Module Words.
Import Str.

(** [a-z] *)
Definition is_lower (c : ascii) : bool :=
  (Ascii.leb "a" c && Ascii.leb c "z")%char.

(** The longest match of [^[a-z]*] on a line. *)
Fixpoint lower_prefix (line : string) : string :=
  match line with
  | String c rest => if is_lower c then String c (lower_prefix rest) else ""
  | EmptyString => ""
  end.

(** [grep -o '^[a-z]*']: the non-empty matches, one per line. *)
Definition grep_o_lower (lines : list string) : list string :=
  filter (λ m, m ≠ "") (lower_prefix <$> lines).

(** The characters of a Python identifier, which the name of an
    importable package, hence of an application's directory, is made
    of: ASCII letters, digits and the underscore. *)
Definition is_ident_char (c : ascii) : bool :=
  (is_lower c || (Ascii.leb "A" c && Ascii.leb c "Z")
   || (Ascii.leb "0" c && Ascii.leb c "9") || Ascii.eqb c "_")%char.

(** A plain line: identifier characters only (the empty line is plain).
    Such a line holds no blank, tab or glob character, so that the
    shell's word splitting and pathname expansion leave it as one word;
    no regular-expression metacharacter, so that [grep] matches it
    letter by letter; and no leading dash, so that neither [echo] nor
    [rm] takes it for an option. *)
Fixpoint plain (line : string) : bool :=
  match line with
  | String c rest => is_ident_char c && plain rest
  | EmptyString => true
  end.

(** The lines of a variable are all plain. On such lines [words],
    [patterns] and [grep_v_f] below do what the shell, [echo] and [grep]
    do; on other lines they do not (a name with a blank is split, a
    pattern with a dot matches more), and the theorems that depend on
    them take [plain_names] as a hypothesis. *)
Definition plain_names (lines : list string) : Prop :=
  forallb plain lines = true.

(** The words an unquoted [${var}] expands to, for a variable holding
    the given lines: empty lines vanish. This is what the shell does
    with plain lines; a line with a blank or a tab would be split, and
    one with a glob character expanded, which [words] does not do. *)
Definition words (lines : list string) : list string :=
  filter (λ w, w ≠ "") lines.

(** The pattern file [<(echo "${my_apps[@]}")]: one pattern per line of
    the variable, and a single empty pattern when the variable is
    empty. This is what [echo] prints for plain lines; a value that is
    just [-e], [-E] or [-n] it would take for an option. *)
Definition patterns (lines : list string) : list string :=
  match lines with
  | [] => [""]
  | _ => lines
  end.

(** [grep -v -f patterns]: the lines in which no pattern occurs.
    For plain patterns, which hold no regular-expression
    metacharacter, matching is a substring test; a pattern with a dot
    or a bracket would match more than itself. *)
Definition grep_v_f (pats lines : list string) : list string :=
  filter (λ l, existsb (λ p, contains p l) pats = false) lines.

End Words.

(** ** The shell and [undo_migrations.sh]

    The script is a [bash] program without [set -e]: every command runs,
    sets [$?], and the next one follows. It is embedded as a program in
    a state monad over the shell's state: the world, the environment
    read from [.env], [$?] and the history of executed commands.

    The framework's commands ([./manage.py ...], [./create_superuser.py])
    are not part of the repository; they are parameters: deterministic,
    terminating functions of the world. Scope of the model:
    - directory names and application labels contain no blank, no glob
      character and no regular-expression metacharacter;
    - [.env] holds variable definitions for the framework only;
    - the working directory is a tree of plain files and directories. *)

Module Shell.
Import Str Fs Words.

(** The commands the script runs. *)
Inductive command :=
| Echo (line : string)
| Source (file : path)
| RmF (target : path)                 (* rm -f target 2>/dev/null *)
| RmRF (target : path)                (* rm -rf target/ 2>/dev/null *)
| Rm (target : path)                  (* rm target 2>/dev/null *)
| Find                                (* find ... | cut -d '/' -f 1 | sort -u *)
| Manage (args : list string)         (* ./manage.py args *)
| CreateSuperuser.                    (* ./create_superuser.py *)

Global Instance command_eq_dec : EqDecision command.
Proof. solve_decision. Defined.

Section State.

(** Whatever the framework keeps outside the working directory: a
    database server, installed packages. *)
Context {Ext : Type}.

Record world := World { files : FS; ext : Ext }.

(** What running a command leaves behind. *)
Record result := Result { after : world; status : Z; output : list string }.

(** One executed command, with the world it started from. *)
Record event := Event { cmd : command; before : world; outcome : result }.

Record shell := Shell {
  now : world;
  environ : option string;     (* what [source .env] read, if it ran *)
  last_status : Z;             (* [$?] *)
  history : list event
}.

(** Programs: state passing over the shell. *)
Definition Sh (A : Type) : Type := shell → A * shell.

Definition ret {A} (a : A) : Sh A := λ s, (a, s).

Definition bind {A B} (m : Sh A) (k : A → Sh B) : Sh B :=
  λ s, let r := m s in k r.1 r.2.

(** Builtins that only set [$?]. *)
Definition set_status (z : Z) : Sh unit := λ s,
  (tt, Shell (now s) (environ s) z (history s)).

(** [[[ -f p ]]] *)
Definition test_f (p : path) : Sh bool := λ s, (is_file (files (now s)) p, s).

(** [if cond; then body; fi]: status 0 when the body does not run. *)
Definition when (cond : bool) (body : Sh unit) : Sh unit :=
  if cond then body else set_status 0.

(** [for app in words; do body; done]: status 0 when there is no word. *)
Fixpoint iterate (l : list string) (body : string → Sh unit) : Sh unit :=
  match l with
  | [] => ret tt
  | app :: l' => bind (body app) (λ _, iterate l' body)
  end.

Definition for_in (l : list string) (body : string → Sh unit) : Sh unit :=
  match l with
  | [] => set_status 0
  | _ => iterate l body
  end.

End State.

Arguments world : clear implicits.
Arguments result : clear implicits.
Arguments event : clear implicits.
Arguments shell : clear implicits.
Arguments Sh : clear implicits.

Declare Scope sh_scope.
Delimit Scope sh_scope with sh.
Notation "x <- m ;; k" := (bind m (λ x, k))
  (at level 100, m at next level, right associativity) : sh_scope.
Notation "m ;; k" := (bind m (λ _, k))
  (at level 100, right associativity) : sh_scope.

Section WithFramework.

Context {Ext : Type}.

(** The framework's management interface and the account script, which
    the repository invokes and does not define: given the environment
    sourced from [.env] (if any), the arguments and the world, the world
    they leave, their exit status and the lines they print. *)
Variable manage : option string → list string → world Ext → result Ext.
Variable create_superuser : option string → world Ext → result Ext.

Local Open Scope sh_scope.

Definition on_files (f : FS → FS * Z) (w : world Ext) : result Ext :=
  Result (World (f (files w)).1 (ext w)) (f (files w)).2 [].

(** What a command does to the world. *)
Definition sem (c : command) (env : option string) (w : world Ext) : result Ext :=
  match c with
  | Echo line => Result w 0 [line]
  | Source _ => Result w 0 []
  | RmF p => on_files (rm_f p) w
  | RmRF p => on_files (rm_rf p) w
  | Rm p => on_files (rm p) w
  | Find => Result w 0 (find_my_apps (files w))
  | Manage args => manage env args w
  | CreateSuperuser => create_superuser env w
  end.

(** The environment after a command: only [source] changes it. The file
    is taken to hold variable definitions for the framework and nothing
    that touches the script's own variables or control flow. *)
Definition sourced (c : command) (env : option string) (w : world Ext) : option string :=
  match c with
  | Source p => match files w !! p with Some (File text) => Some text | _ => env end
  | _ => env
  end.

(** Run one command; its standard output is the value. *)
Definition exec (c : command) : Sh Ext (list string) := λ s,
  let r := sem c (environ s) (now s) in
  (output r,
   Shell (after r) (sourced c (environ s) (now s)) (status r)
         (history s ++ [Event c (now s) r])).

(** [remove_app_migrations] *)
Definition remove_app_migrations (my_apps : list string) : Sh Ext unit :=
  for_in (words my_apps) (λ app,
    exec (Echo ("Removing migrations for " +:+ app +:+ "...")) ;;
    exec (Manage ["migrate"; app; "zero"]) ;;
    exec (RmRF [app; "migrations"]) ;;
    ret tt).

(** [undo_migrations.sh], with [argv] the positional parameters. *)
Definition undo_migrations (argv : list string) : Sh Ext unit :=
  let redo := String.eqb (nth 0 argv "") "--redo" in
  has_env <- test_f [".env"] ;;
  when has_env (exec (Echo "Sourcing .env file...") ;;
                exec (Source [".env"]) ;;
                ret tt) ;;
  exec (RmF ["db.sqlite3"]) ;;
  shown <- exec (Manage ["showmigrations"]) ;;
  let all_apps := grep_o_lower shown in
  set_status 0 ;;
  my_apps <- exec Find ;;
  (if redo then
     exec (Echo "Redoing migrations...") ;;
     exec (Echo "Creating migrations...") ;;
     remove_app_migrations my_apps ;;
     exec (Manage ("makemigrations" :: words my_apps)) ;;
     exec (Manage ["migrate"]) ;;
     ret tt
   else remove_app_migrations my_apps) ;;
  let django_apps := grep_v_f (patterns my_apps) all_apps in
  set_status 0 ;;
  for_in (words django_apps) (λ app,
    exec (Echo ("Undoing migrations for " +:+ app +:+ "...")) ;;
    exec (Manage ["migrate"; app; "zero"]) ;;
    exec (RmRF [app; "migrations"]) ;;
    ret tt) ;;
  when redo (exec (Manage ["migrate"]) ;;
             exec (Echo "") ;;
             exec (Echo "Creating super superuser...") ;;
             exec CreateSuperuser ;;
             exec (Echo "Super User created...") ;;
             ret tt) ;;
  exec (Rm ["error.log"]) ;;
  exec (Echo "Finished execution successfully") ;;
  ret tt.

(** A fresh shell in a given world. *)
Definition boot (w : world Ext) : shell Ext := Shell w None 0 [].

(** The shell when the script has run. *)
Definition run (argv : list string) (w : world Ext) : shell Ext :=
  (undo_migrations argv (boot w)).2.

(** The commands of a history, in order. *)
Definition commands (s : shell Ext) : list command := cmd <$> history s.

(** The script's exit status: that of the last command. *)
Definition exit_status (argv : list string) (w : world Ext) : Z :=
  last_status (run argv w).

(** *** The script as a straight line

    Once the applications are known, nothing the script does depends on
    an exit status or an output any more, and the run is the execution
    of a fixed list of commands. *)

Definition exec_all (cs : list command) (s : shell Ext) : shell Ext :=
  foldl (λ s c, (exec c s).2) s cs.

(** The three commands of a loop body, for every application in turn;
    [say] makes the line to echo. *)
Definition per_app (say : string → string) (apps : list string) : list command :=
  apps ≫= λ app,
    [Echo (say app); Manage ["migrate"; app; "zero"]; RmRF [app; "migrations"]].

Definition removing (app : string) : string :=
  "Removing migrations for " +:+ app +:+ "...".

Definition undoing (app : string) : string :=
  "Undoing migrations for " +:+ app +:+ "...".

Definition preamble (has_env : bool) : list command :=
  (if has_env then [Echo "Sourcing .env file..."; Source [".env"]] else [])
  ++ [RmF ["db.sqlite3"]].

Definition discovery (has_env : bool) : list command :=
  preamble has_env ++ [Manage ["showmigrations"]; Find].

Definition finale (redo : bool) : list command :=
  (if redo then
     [Manage ["migrate"]; Echo ""; Echo "Creating super superuser...";
      CreateSuperuser; Echo "Super User created..."]
   else [])
  ++ [Rm ["error.log"]; Echo "Finished execution successfully"].

Definition plan (redo : bool) (my_apps django_apps : list string) : list command :=
  (if redo then
     [Echo "Redoing migrations..."; Echo "Creating migrations..."]
     ++ per_app removing (words my_apps)
     ++ [Manage ("makemigrations" :: words my_apps); Manage ["migrate"]]
   else per_app removing (words my_apps))
  ++ per_app undoing (words django_apps)
  ++ finale redo.

(** The values of [all_apps], [my_apps] and [django_apps] in a run. *)
Definition all_apps_of (w : world Ext) : list string :=
  let s := exec_all (preamble (is_file (files w) [".env"])) (boot w) in
  grep_o_lower (output (manage (environ s) ["showmigrations"] (now s))).

Definition my_apps_of (w : world Ext) : list string :=
  let s := exec_all (preamble (is_file (files w) [".env"])
                     ++ [Manage ["showmigrations"]]) (boot w) in
  find_my_apps (files (now s)).

Definition django_apps_of (w : world Ext) : list string :=
  grep_v_f (patterns (my_apps_of w)) (all_apps_of w).

(** The whole list of commands of a run. *)
Definition script (argv : list string) (w : world Ext) : list command :=
  discovery (is_file (files w) [".env"])
  ++ plan (String.eqb (nth 0 argv "") "--redo") (my_apps_of w) (django_apps_of w).

(** Two shells that differ in [$?] at most. *)
Definition sim (s s' : shell Ext) : Prop :=
  now s = now s' ∧ environ s = environ s' ∧ history s = history s'.

(** [yields s0 m cs a]: started in [s0], whatever [$?] is, the program
    [m] returns [a] and leaves the shell that running the commands [cs]
    one after the other leaves. *)
Definition yields {A} (s0 : shell Ext) (m : Sh Ext A) (cs : list command) (a : A) : Prop :=
  ∀ s, sim s s0 → (m s).1 = a ∧ sim (m s).2 (exec_all cs s0).

(** *** Reading a run *)

(** An event is what its command does in the world it started from. *)
Definition genuine (e : event Ext) : Prop :=
  ∃ env, outcome e = sem (cmd e) env (before e).

(** The events of a history follow one another: the first starts from
    [w], each next one from the world the one before left, and the last
    one leaves [w']. *)
Fixpoint linked (w : world Ext) (h : list (event Ext)) (w' : world Ext) : Prop :=
  match h with
  | [] => w = w'
  | e :: h' => before e = w ∧ linked (after (outcome e)) h' w'
  end.

(** An event left the world as it found it. *)
Definition unchanged (e : event Ext) : Prop := after (outcome e) = before e.

(** The target of a deletion is absent. *)
Definition target_absent (e : event Ext) : Prop :=
  match cmd e with
  | RmF p | RmRF p | Rm p => files (before e) !! p = None
  | _ => False
  end.

(** A command that cannot touch the path [q]. *)
Definition spares (q : path) (c : command) : Prop :=
  match c with
  | RmF p | Rm p => p ≠ q
  | RmRF p => ¬ p `prefix_of` q
  | _ => True
  end.

(** The framework's commands leave the path [q] as it is. *)
Definition framework_keeps (q : path) : Prop :=
  (∀ env args w, files (after (manage env args w)) !! q = files w !! q) ∧
  (∀ env w, files (after (create_superuser env w)) !! q = files w !! q).

(** The order of the redo steps in the specification's words: the
    account is provisioned before any other application is unwound. *)
Definition superuser_before_unwinding (django_apps : list string) (cs : list command) : Prop :=
  ∀ i j app, app ∈ django_apps →
    cs !! i = Some CreateSuperuser →
    cs !! j = Some (Manage ["migrate"; app; "zero"]) →
    i < j.

(** The migration-status check: [./manage.py showmigrations] run in the
    final world, read by [pending_in], which tells whether a status
    report lists a migration as not applied. *)
Variable pending_in : list string → bool.

Definition no_pending (env : option string) (w : world Ext) : Prop :=
  pending_in (output (manage env ["showmigrations"] w)) = false.

(** Modelled from the spec: what [./manage.py migrate], which is not in
    the repository, does. It "applies all pending migrations": when it
    exits 0, the status check that follows reports none as pending. *)
Definition migrate_applies_all : Prop :=
  ∀ env w, status (manage env ["migrate"] w) = 0%Z →
           no_pending env (after (manage env ["migrate"] w)).

(** Modelled from the spec: what [./create_superuser.py], which is not
    in the repository, does. It "provisions a superuser account", and
    unapplies no migration. *)
Definition superuser_keeps_status : Prop :=
  ∀ env w, no_pending env w → no_pending env (after (create_superuser env w)).

(** Modelled from the spec: the status check reads the framework's
    migration records, not the "known error-log file" that the script
    clears at the end. *)
Definition status_ignores_error_log : Prop :=
  ∀ env w, no_pending env w →
           no_pending env (World (delete ["error.log"] (files w)) (ext w)).

(** The last [./manage.py migrate] of a run, and that it exited 0. *)
Definition final_migrate (s : shell Ext) : option (event Ext) :=
  last (filter (λ e, cmd e = Manage ["migrate"]) (history s)).

Definition final_migrate_succeeded (s : shell Ext) : Prop :=
  ∃ e, final_migrate s = Some e ∧ status (outcome e) = 0%Z.

End WithFramework.

End Shell.

(** ** A framework to run the script on *)

Module Sample.
Import Str Fs Words Shell.

(** A stand-in for the framework, small enough to compute with: three
    applications, [auth], [blog] and [legacy], with one migration each.
    All it keeps is the list of applications whose migration is applied,
    and it never writes below the working directory. *)
Definition known : list string := ["auth"; "blog"; "legacy"].

Definition manage (env : option string) (args : list string)
    (w : world (list string)) : result (list string) :=
  match args with
  | [sub] =>
      if String.eqb sub "showmigrations" then
        Result w 0
          (known ≫= λ app,
             [app; if bool_decide (app ∈ ext w)
                   then " [X] 0001_initial" else " [ ] 0001_initial"])
      else if String.eqb sub "migrate" then
        Result (World (files w) known) 0 []
      else Result w 0 []
  | [sub; app; target] =>
      if String.eqb sub "migrate" && String.eqb target "zero" then
        if bool_decide (app ∈ known)
        then Result (World (files w) (filter (λ a, a ≠ app) (ext w))) 0 []
        else Result w 1 []
      else Result w 0 []
  | _ => Result w 0 []
  end.

Definition create_superuser (env : option string)
    (w : world (list string)) : result (list string) :=
  Result w 0 [].

(** The same framework in a project whose migrations cannot be run (one
    of them raises an error, say): the status report is printed as
    before; every other command fails with status 1 and changes
    nothing. *)
Definition failing (env : option string) (args : list string)
    (w : world (list string)) : result (list string) :=
  match args with
  | [sub] =>
      if String.eqb sub "showmigrations" then manage env args w
      else Result w 1 []
  | _ => Result w 1 []
  end.

(** A status report lists a migration as not applied. *)
Definition pending_in (report : list string) : bool :=
  existsb (contains "[ ]") report.

(** Nothing of [app] is applied. *)
Definition nothing_applied (app : string) (w : world (list string)) : Prop :=
  app ∉ ext w.

(** A working directory: the project's own application [blog], an
    application [legacy] whose directory holds migrations and no
    initializer, and the framework's application [auth] with its
    migrations inside the virtual environment. *)
Definition tree : FS :=
  list_to_map
    [([".env"], File "SECRET=1");
     (["db.sqlite3"], File "sqlite");
     (["blog"], Dir);
     (["blog"; "__init__.py"], File "");
     (["blog"; "migrations"], Dir);
     (["blog"; "migrations"; "__init__.py"], File "");
     (["blog"; "migrations"; "0001_initial.py"], File "blog 1");
     (["legacy"], Dir);
     (["legacy"; "migrations"], Dir);
     (["legacy"; "migrations"; "0001_initial.py"], File "legacy 1");
     ([".venv"], Dir);
     ([".venv"; "django"], Dir);
     ([".venv"; "django"; "auth"], Dir);
     ([".venv"; "django"; "auth"; "__init__.py"], File "");
     ([".venv"; "django"; "auth"; "migrations"], Dir);
     ([".venv"; "django"; "auth"; "migrations"; "0001_initial.py"], File "auth 1")].

Definition start : world (list string) := World tree ["auth"; "blog"; "legacy"].

(** The same working directory with a new database: nothing applied. *)
Definition fresh : world (list string) := World tree [].

(** A migration of [legacy], in the working directory. *)
Definition local_migration : path := ["legacy"; "migrations"; "0001_initial.py"].

(** A migration of [auth], in the framework's installation. *)
Definition installed_migration : path :=
  [".venv"; "django"; "auth"; "migrations"; "0001_initial.py"].

(** A project package with its settings and a sub-package. *)
Definition nested : FS :=
  list_to_map
    [(["config"], Dir);
     (["config"; "__init__.py"], File "");
     (["config"; "settings.py"], File "DEBUG = True");
     (["config"; "utils"], Dir);
     (["config"; "utils"; "__init__.py"], File "")].

End Sample.

(** ** Installing the listeners ([password_toggle.js], the site script) *)

Module Listeners.
Import PasswordToggle.

(** The elements the scripts look up by id and call [addEventListener]
    on: [true] when the page has the element, [false] when
    [getElementById] returns [null]. *)
Record document := Document {
  mobile_menu_button : bool;
  togglePassword : bool;
  toggleConfirmPassword : bool;
  hamburger : bool;
  user_menu_button : bool
}.

(** The listeners the scripts install. *)
Inductive listener :=
| MobileMenuClick              (* click on #mobile-menu-button *)
| HeroLoaded                   (* DOMContentLoaded: hero section *)
| CardsLoaded                  (* DOMContentLoaded: card animation *)
| PasswordLoaded               (* DOMContentLoaded: password toggles *)
| SlideTimer                   (* setInterval(nextSlide, 4000) *)
| TogglePasswordClick          (* click on #togglePassword *)
| ToggleConfirmPasswordClick   (* click on #toggleConfirmPassword *)
| HamburgerClick               (* click on #hamburger *)
| UserMenuButtonClick          (* click on #user-menu-button *)
| WindowClick.                 (* click on window *)

Global Instance listener_eq_dec : EqDecision listener.
Proof. solve_decision. Defined.

(** Statements [element.addEventListener(...)] run one after the other:
    each installs its listener when the element is there, and throws
    when it is [null], which ends the surrounding script or handler. *)
Fixpoint install (stmts : list (bool * listener)) : list listener * completion :=
  match stmts with
  | [] => ([], Normal)
  | (present, l) :: rest =>
      if present then (l :: (install rest).1, (install rest).2)
      else ([], TypeError)
  end.

(** The [DOMContentLoaded] handler of the password toggles. *)
Definition password_loaded (d : document) : list listener * completion :=
  install [(togglePassword d, TogglePasswordClick);
           (toggleConfirmPassword d, ToggleConfirmPasswordClick)].

(** The top level of the site script: the mobile menu button first, then
    the three [document.addEventListener("DOMContentLoaded", ...)], for
    which the target is always there. *)
Definition site_statements (d : document) : list (bool * listener) :=
  [(mobile_menu_button d, MobileMenuClick);
   (true, HeroLoaded); (true, CardsLoaded); (true, PasswordLoaded)].

(** The same followed by the dashboard part: hamburger, user menu button
    and [window]. *)
Definition dashboard_statements (d : document) : list (bool * listener) :=
  site_statements d ++
  [(hamburger d, HamburgerClick);
   (user_menu_button d, UserMenuButtonClick);
   (true, WindowClick)].

(** What is installed once the script has run and [DOMContentLoaded] has
    fired: the listeners of the top level, then what each installed
    [DOMContentLoaded] handler installs in turn (a handler that throws
    does not stop the next one). *)
Definition loaded (top : list listener) (d : document) : list listener :=
  top
  ++ (if decide (HeroLoaded ∈ top) then [SlideTimer] else [])
  ++ (if decide (PasswordLoaded ∈ top) then (password_loaded d).1 else []).

Definition site_listeners (d : document) : list listener :=
  loaded (install (site_statements d)).1 d.

Definition dashboard_listeners (d : document) : list listener :=
  loaded (install (dashboard_statements d)).1 d.

End Listeners.

(** ** The dashboard: sidebar and user menu (site script, last part) *)

Module Dashboard.
Import Dom.

(** The class lists of [#sidebar] and [#user-menu], on a page that has
    both. *)
Record dashboard := Dashboard { sidebar : classList; userMenu : classList }.

(** Where a click landed: whether [e.target] lies inside [#hamburger],
    inside [#user-menu-button], inside [#user-menu]. *)
Record target := Target {
  in_hamburger : bool;
  in_userMenuButton : bool;
  in_userMenu : bool
}.

(** The click listener of [#hamburger]. *)
Definition hamburger_click (d : dashboard) : dashboard :=
  Dashboard (toggle "sidebar-closed" (sidebar d)) (userMenu d).

(** The click listener of [#user-menu-button]. *)
Definition userMenuButton_click (d : dashboard) : dashboard :=
  Dashboard (sidebar d) (toggle "hidden" (userMenu d)).

(** The click listener of [window]. *)
Definition window_click (t : target) (d : dashboard) : dashboard :=
  if negb (in_userMenuButton t) && negb (in_userMenu t)
  then Dashboard (sidebar d) (add "hidden" (userMenu d))
  else d.

(** One click: the event bubbles from the target up to [window], so the
    listener of every element the target lies in runs, and the one of
    [window] runs last. *)
Definition click (t : target) (d : dashboard) : dashboard :=
  let d1 := if in_hamburger t then hamburger_click d else d in
  let d2 := if in_userMenuButton t then userMenuButton_click d1 else d1 in
  window_click t d2.

End Dashboard.

(** ** More readings of a run of [undo_migrations.sh] *)

Module Readings.
Import Str Fs Words Shell.

(** A non-empty word of lower-case letters. *)
Definition lower_word (s : string) : Prop :=
  s ≠ "" ∧ ∀ c, has_char c s = true → is_lower c = true.

(** Strictly ascending, byte by byte: every line sorts before all the
    lines after it. *)
Fixpoint ascending (l : list string) : Prop :=
  match l with
  | [] => True
  | x :: l' => Forall (λ y, String.compare x y = Lt) l' ∧ ascending l'
  end.

Section WithFramework.

Context {Ext : Type}.
Variable manage : option string → list string → world Ext → result Ext.
Variable create_superuser : option string → world Ext → result Ext.

(** The two framework commands of a run without [--redo], the status
    report and the rollback of an application, create nothing and
    change nothing below the working directory: what is there
    afterwards was there before. *)
Definition rollback_writes_nothing : Prop :=
  (∀ env w, files (after (manage env ["showmigrations"] w)) ⊆ files w) ∧
  (∀ env app w, files (after (manage env ["migrate"; app; "zero"] w)) ⊆ files w).

(** A command that applies or regenerates migrations, or provisions the
    account. *)
Definition builds (c : command) : Prop :=
  c = CreateSuperuser ∨ c = Manage ["migrate"] ∨
  ∃ apps, c = Manage ("makemigrations" :: apps).

End WithFramework.

End Readings.

(** ** The test workflows ([django-test-cases.yml] and its production twin) *)

Module TestWorkflows.
Import Fs Shell.

(** The command lines of the step "Install Dependencies". *)
Definition install_commands : list (list string) :=
  [["python"; "-m"; "pip"; "install"; "--upgrade"; "pip"];
   ["pip"; "install"; "-r"; "requirements.txt"];
   ["wget";
    "https://github.com/mozilla/geckodriver/releases/download/v0.34.0/geckodriver-v0.34.0-linux64.tar.gz"];
   ["sudo"; "tar"; "-xvf"; "geckodriver-v0.34.0-linux64.tar.gz"];
   ["sudo"; "mv"; "geckodriver"; "/usr/local/bin/"];
   ["sudo"; "chmod"; "+x"; "/usr/local/bin/geckodriver"]].

(** The command line of the step "Run Tests". *)
Definition test_command : list string := ["python"; "manage.py"; "test"; "-v"; "3"].

Definition notice : string :=
  "No manage.py file found. Probably the Django files haven't been added yet.".

Section WithTools.

Context {Ext : Type}.

(** The programs the steps call, which the repository does not define:
    from the command line and the world, the world they leave and their
    exit status. *)
Variable tool : list string → world Ext → result Ext.

(** Whether the runner starts the step's shell with [-e]. *)
Variable errexit : bool.

(** What a step leaves: the world, its exit status, the command lines
    it ran and the lines it echoed. *)
Record step := Step {
  world_after : world Ext;
  step_status : Z;
  ran : list (list string);
  echoed : list string
}.

(** Commands one after the other: the status is that of the last one
    run; with [-e], the first command that fails ends the script. *)
Fixpoint in_sequence (cmds : list (list string)) (w : world Ext) : step :=
  match cmds with
  | [] => Step w 0 [] []
  | c :: rest =>
      let r := tool c w in
      if errexit && negb (Z.eqb (status r) 0) then Step (after r) (status r) [c] []
      else match rest with
           | [] => Step (after r) (status r) [c] []
           | _ => let s := in_sequence rest (after r) in
                  Step (world_after s) (step_status s) (c :: ran s) []
           end
  end.

(** Step "Install Dependencies": [if [[ -f manage.py ]]; then ...; fi]. *)
Definition install_dependencies (w : world Ext) : step :=
  if is_file (files w) ["manage.py"] then in_sequence install_commands w
  else Step w 0 [] [].

(** Step "Run Tests" of [django-test-cases.yml]. *)
Definition run_tests (w : world Ext) : step :=
  if is_file (files w) ["manage.py"] then in_sequence [test_command] w
  else Step w 0 [] [].

(** Step "Run Tests" of the production workflow, which has an [else]. *)
Definition run_tests_production (w : world Ext) : step :=
  if is_file (files w) ["manage.py"] then in_sequence [test_command] w
  else Step w 0 [] [notice].

(** The two steps of a job, in the workspace left by the checkout: the
    second runs only when the first has succeeded. *)
Definition job (tests : world Ext → step) (w : world Ext) : step :=
  let s1 := install_dependencies w in
  if Z.eqb (step_status s1) 0 then
    let s2 := tests (world_after s1) in
    Step (world_after s2) (step_status s2) (ran s1 ++ ran s2) (echoed s1 ++ echoed s2)
  else s1.

Definition dev_test_django : world Ext → step := job run_tests.
Definition production_test_django : world Ext → step := job run_tests_production.

End WithTools.

End TestWorkflows.

(** ** Tools to run the test workflows on *)

Module SampleTools.
Import Fs Shell TestWorkflows.

(** Every program succeeds and leaves the world alone, except [wget],
    which fails with status 4. *)
Definition tool (args : list string) (w : world unit) : result unit :=
  match args with
  | prog :: _ => if String.eqb prog "wget" then Result w 4 [] else Result w 0 []
  | [] => Result w 0 []
  end.

(** Every program succeeds. *)
Definition fine (args : list string) (w : world unit) : result unit := Result w 0 [].

Definition workspace : world unit :=
  World (list_to_map [(["manage.py"], File "#!/usr/bin/env python");
                      (["requirements.txt"], File "Django")]) tt.

Definition empty_workspace : world unit := World ∅ tt.

End SampleTools.

(** * Proofs *)

Module StrFacts.
Import Str.

Lemma prefix_nil_r (s : string) : String.prefix s "" = true → s = "".
Proof. by destruct s. Qed.

Lemma app_nil_s (s : string) : "" +:+ s = s.
Proof. reflexivity. Qed.

Lemma app_cons_s (a : ascii) (s t : string) : String a s +:+ t = String a (s +:+ t).
Proof. reflexivity. Qed.

Lemma prefix_empty (s : string) : String.prefix "" s = true.
Proof. by destruct s. Qed.

Lemma prefix_cons (a b : ascii) (s t : string) :
  String.prefix (String a s) (String b t) = true ↔ a = b ∧ String.prefix s t = true.
Proof.
  simpl. destruct (ascii_dec a b) as [->|Hne]; [tauto|].
  split; [done|]. intros [? _]. done.
Qed.

(** A space-free word followed by a space is a prefix of another
    space-free word followed by a space only when the words agree. *)
Lemma prefix_token (h t rest : string) :
  no_space h → no_space t →
  String.prefix (h +:+ " ") (t +:+ " " +:+ rest) = true ↔ h = t.
Proof.
  unfold no_space. revert t.
  induction h as [|a h IH]; intros [|b t] Hh Ht; cbn [has_char] in *;
    rewrite ?app_cons_s, ?app_nil_s, ?app_cons_s.
  - rewrite prefix_cons, prefix_empty. tauto.
  - apply orb_false_iff in Ht as [Hb _]. apply Ascii.eqb_neq in Hb.
    rewrite prefix_cons. split; [intros [<- _]; by destruct Hb | done].
  - apply orb_false_iff in Hh as [Ha _]. apply Ascii.eqb_neq in Ha.
    rewrite prefix_cons. split; [intros [-> _]; by destruct Ha | done].
  - apply orb_false_iff in Hh as [_ Hh]. apply orb_false_iff in Ht as [_ Ht].
    rewrite prefix_cons, (IH t Hh Ht).
    split; [intros [-> ->]; done | intros [= -> ->]; done].
Qed.

(** A needle that starts with a space cannot start inside a space-free
    word. *)
Lemma contains_skip_token (n t rest : string) :
  no_space t →
  contains (String space n) (t +:+ rest) = contains (String space n) rest.
Proof.
  unfold no_space. induction t as [|b t IH]; intros Ht; [done|].
  simpl in Ht. apply orb_false_iff in Ht as [Hb Ht].
  apply Ascii.eqb_neq in Hb.
  change (String b t +:+ rest) with (String b (t +:+ rest)).
  cbn [contains]. rewrite IH by done.
  destruct (String.prefix (String space n) (String b (t +:+ rest))) eqn:E; [|done].
  apply prefix_cons in E as [<- _]. by destruct Hb.
Qed.

Lemma spaced_head (l : list string) : ∃ r, spaced l = String space r.
Proof. destruct l; simpl; eauto. Qed.

(** Searching the padded word in the padded, space-joined list is a
    membership test, as long as no word has a space inside. *)
Lemma contains_spaced (h : string) (l : list string) :
  no_space h → Forall no_space l →
  contains (" " +:+ h +:+ " ") (spaced l) = true ↔ h ∈ l.
Proof.
  intros Hh Hl. rewrite app_cons_s, app_nil_s.
  induction Hl as [|t l Ht Hl IH].
  - rewrite elem_of_nil. cbn [spaced contains].
    rewrite orb_false_r, prefix_cons.
    split; [|done]. intros [_ E]. apply prefix_nil_r in E. by destruct h.
  - cbn [spaced]. rewrite app_cons_s, app_nil_s.
    cbn [contains]. rewrite orb_true_iff, prefix_cons.
    rewrite contains_skip_token by done.
    rewrite IH, elem_of_cons.
    destruct (spaced_head l) as [r ->].
    change (String space r) with (" " +:+ r).
    rewrite prefix_token by done. tauto.
Qed.

End StrFacts.

Module BaseBranchFacts.
Import Str StrFacts BaseBranch.

Lemma haystack_spaced :
  " " +:+ join_sp allowed_head_branches +:+ " " = spaced allowed_head_branches.
Proof. reflexivity. Qed.

Lemma allowed_no_space : Forall no_space allowed_head_branches.
Proof. repeat constructor. Qed.

End BaseBranchFacts.

Module BaseBranchProofs.
Import Str StrFacts BaseBranch BaseBranchFacts.

Example check_base_branch_runs :
  exit_status (check_base_branch "production" "dev") = 0%Z ∧
  exit_status (check_base_branch "production" "development/core") = 1%Z ∧
  exit_status (check_base_branch "dev" "development/teacher") = 0%Z ∧
  exit_status (check_base_branch "dev" "development") = 1%Z ∧
  exit_status (check_base_branch "dev" "") = 1%Z ∧
  exit_status (check_base_branch "development/core" "fix-typo") = 0%Z.
Proof. repeat split; reflexivity. Qed.

Lemma exit_status_cases (base_branch head_branch : string) :
  exit_status (check_base_branch base_branch head_branch) = 0%Z ∨
  exit_status (check_base_branch base_branch head_branch) = 1%Z.
Proof.
  unfold check_base_branch.
  repeat (case_match; simpl; auto).
Qed.

Lemma accepted_production (head_branch : string) :
  accepted "production" head_branch ↔ head_branch = "dev".
Proof.
  unfold accepted, check_base_branch. simpl String.eqb.
  destruct (String.eqb_spec head_branch "dev"); simpl; split; done.
Qed.

Lemma accepted_dev (head_branch : string) :
  no_space head_branch →
  accepted "dev" head_branch ↔ head_branch ∈ allowed_head_branches.
Proof.
  intros Hh. unfold accepted, check_base_branch. simpl String.eqb.
  rewrite haystack_spaced.
  rewrite <- (contains_spaced head_branch allowed_head_branches Hh allowed_no_space).
  destruct (contains _ _); simpl; split; done.
Qed.

Lemma accepted_other (base_branch head_branch : string) :
  base_branch ≠ "production" → base_branch ≠ "dev" →
  accepted base_branch head_branch.
Proof.
  intros H1 H2. unfold accepted, check_base_branch.
  destruct (String.eqb_spec base_branch "production"); [done|].
  destruct (String.eqb_spec base_branch "dev"); done.
Qed.

(** C2 (as amended). For a head branch that is a git ref name (no space
    inside), the step exits 0 exactly when the pull request obeys the
    policy with head branches compared by name: towards [production]
    only from [dev], towards [dev] only from one of the four listed
    branches, anywhere else always; and it exits non-zero exactly when
    the policy is violated. *)
Theorem check_base_branch_policy (base_branch head_branch : string) :
  no_space head_branch →
  (accepted base_branch head_branch ↔ policy_exact base_branch head_branch) ∧
  (exit_status (check_base_branch base_branch head_branch) ≠ 0%Z ↔
   ¬ policy_exact base_branch head_branch).
Proof.
  intros Hh.
  assert (accepted base_branch head_branch ↔ policy_exact base_branch head_branch) as Hiff.
  { unfold policy_exact.
    destruct (decide (base_branch = "production")) as [->|Hp].
    - rewrite accepted_production. split; [intros ->; split; done | intros [H _]; auto].
    - destruct (decide (base_branch = "dev")) as [->|Hd].
      + rewrite accepted_dev by done. split; [intros ?; split; done | intros [_ H]; auto].
      + split; [intros _; split; done | intros _; by apply accepted_other]. }
  split; [done|]. unfold accepted in Hiff. by rewrite Hiff.
Qed.

Lemma check_base_branch_policy_witness :
  no_space "development/core" ∧
  (accepted "dev" "development/core" ↔ policy_exact "dev" "development/core").
Proof.
  split; [reflexivity|].
  apply (check_base_branch_policy "dev" "development/core"). reflexivity.
Defined.

(** C2 (as stated) fails: [development/core-ui] has the listed branch
    [development/core] as a prefix, so the policy read with prefixes
    admits it towards [dev], yet the step exits 1. *)
Lemma check_base_branch_prefix_rejected :
  exit_status (check_base_branch "dev" "development/core-ui") = 1%Z ∧
  policy_prefix "dev" "development/core-ui" ∧
  ¬ (accepted "dev" "development/core-ui" ↔ policy_prefix "dev" "development/core-ui").
Proof.
  assert (policy_prefix "dev" "development/core-ui") as Hp.
  { split; [done|]. intros _. exists "development/core".
    split; [constructor | reflexivity]. }
  split; [reflexivity|]. split; [done|].
  intros [_ H]. specialize (H Hp). unfold accepted in H.
  vm_compute in H. discriminate H.
Qed.

End BaseBranchProofs.

Module DomFacts.
Import Dom.

Lemma elem_of_remove (t token : string) (cl : classList) :
  t ∈ remove token cl ↔ t ≠ token ∧ t ∈ cl.
Proof. unfold remove. by rewrite list_elem_of_filter. Qed.

Lemma elem_of_add (t token : string) (cl : classList) :
  t ∈ add token cl ↔ t = token ∨ t ∈ cl.
Proof.
  unfold add. case_decide as Hin.
  - split; [auto | intros [->|]; done].
  - rewrite elem_of_app, list_elem_of_singleton. tauto.
Qed.

(** Toggling flips the membership of the token and of no other. *)
Lemma elem_of_toggle (t token : string) (cl : classList) :
  t ∈ toggle token cl ↔ (t = token ∧ token ∉ cl) ∨ (t ≠ token ∧ t ∈ cl).
Proof.
  unfold toggle. case_decide as Hin.
  - rewrite elem_of_remove. tauto.
  - rewrite elem_of_app, list_elem_of_singleton.
    destruct (decide (t = token)) as [->|]; tauto.
Qed.

Lemma elem_of_toggle_force (t token : string) (force : bool) (cl : classList) :
  t ∈ toggle_force token force cl ↔
  if force then t = token ∨ t ∈ cl else t ≠ token ∧ t ∈ cl.
Proof.
  unfold toggle_force. destruct force; [apply elem_of_add | apply elem_of_remove].
Qed.

(** Two rounds of toggling two tokens give back every membership. *)
Lemma elem_of_toggle_twice (t a b : string) (cl : classList) :
  t ∈ toggle b (toggle a (toggle b (toggle a cl))) ↔ t ∈ cl.
Proof.
  rewrite !elem_of_toggle.
  destruct (decide (t = a)); destruct (decide (t = b)); destruct (decide (a = b));
    destruct (decide (a ∈ cl)); destruct (decide (b ∈ cl)); destruct (decide (t ∈ cl));
    try (exfalso; congruence); subst; try tauto; intuition congruence.
Qed.

End DomFacts.

Module PasswordToggleProofs.
Import Dom DomFacts PasswordToggle.

Lemma click_type (p : page) :
  passwordField (togglePassword_click p).1 =
  if String.eqb (passwordField p) "password" then "text" else "password".
Proof. unfold togglePassword_click. by destruct (togglePassword_i p). Qed.

Lemma click_icon (p : page) (cl : classList) :
  togglePassword_i p = Some cl →
  togglePassword_i (togglePassword_click p).1
    = Some (toggle "fa-eye-slash" (toggle "fa-eye" cl)) ∧
  (togglePassword_click p).2 = Normal.
Proof. unfold togglePassword_click. by intros ->. Qed.

(** C9. With the icon in place, one click on [togglePassword] turns the
    field's type ["password"] into ["text"] and any other type into
    ["password"]; and when the type starts as ["password"] or ["text"],
    two clicks both complete normally, give the type back, and leave
    the icon with exactly the classes it had, [fa-eye] and
    [fa-eye-slash] among them. *)
Theorem togglePassword_click_involution (p : page) (cl : classList) :
  togglePassword_i p = Some cl →
  let p1 := (togglePassword_click p).1 in
  let p2 := (togglePassword_click p1).1 in
  ((passwordField p = "password" → passwordField p1 = "text") ∧
   (passwordField p ≠ "password" → passwordField p1 = "password")) ∧
  (passwordField p = "password" ∨ passwordField p = "text" →
   (togglePassword_click p).2 = Normal ∧
   (togglePassword_click p1).2 = Normal ∧
   passwordField p2 = passwordField p ∧
   ∃ cl2, togglePassword_i p2 = Some cl2 ∧
          ("fa-eye" ∈ cl2 ↔ "fa-eye" ∈ cl) ∧
          ("fa-eye-slash" ∈ cl2 ↔ "fa-eye-slash" ∈ cl) ∧
          ∀ t, t ∈ cl2 ↔ t ∈ cl).
Proof.
  intros Hicon p1 p2.
  destruct (click_icon p cl Hicon) as [Hicon1 Hn1].
  destruct (click_icon p1 _ Hicon1) as [Hicon2 Hn2].
  split.
  - subst p1. rewrite click_type.
    split; [intros ->; done|].
    intros Hne. by destruct (String.eqb_spec (passwordField p) "password").
  - intros Hty. split; [done|]. split; [done|]. split.
    + subst p2 p1. rewrite !click_type. by destruct Hty as [-> | ->].
    + eexists. split; [exact Hicon2|].
      split; [apply elem_of_toggle_twice|].
      split; [apply elem_of_toggle_twice|].
      intros t. apply elem_of_toggle_twice.
Qed.

Lemma togglePassword_click_involution_witness :
  let p := Page "password" "password" (Some ["fa"; "fa-eye"]) (Some ["fa"; "fa-eye"]) in
  passwordField (togglePassword_click (togglePassword_click p).1).1 = "password".
Proof.
  intros p.
  pose proof (togglePassword_click_involution p ["fa"; "fa-eye"] eq_refl) as [_ H].
  destruct (H (or_introl eq_refl)) as (_ & _ & Hty & _). exact Hty.
Defined.

End PasswordToggleProofs.

Module SlideshowProofs.
Import Dom DomFacts Slideshow.

Lemma showSlide_length (index : number) (sl : list classList) :
  length (showSlide index sl) = length sl.
Proof. unfold showSlide. apply length_imap. Qed.

Lemma showSlide_shows (k : nat) (sl : list classList) :
  shows k (showSlide (Num k) sl).
Proof.
  intros i cl. unfold showSlide. rewrite list_lookup_imap.
  destruct (sl !! i) as [slide|]; [|done]. intros [= <-].
  simpl strict_eq. unfold toggle_force.
  destruct (Nat.eqb_spec i k) as [->|Hne]; simpl;
    rewrite ?elem_of_add, ?elem_of_remove, ?elem_of_add, ?elem_of_remove.
  - split; split; try done; [auto | intros [? _]; done].
  - split; split; try done; [intros [[=]|[? _]]; done | auto].
Qed.

Lemma rem_Num (n len : nat) : len ≠ 0 → rem (Num n) len = Num (n mod len).
Proof. by destruct len. Qed.

Lemma nextSlide_invariant (h : hero) (n : nat) :
  slides h ≠ [] → currentSlide h = Num n → slide_invariant (nextSlide h).
Proof.
  intros Hne Hcur.
  assert (length (slides h) ≠ 0) as Hlen by (by destruct (slides h)).
  unfold nextSlide. rewrite Hcur. cbn [succ]. rewrite rem_Num by done.
  exists (S n mod length (slides h)). cbn [currentSlide slides].
  split; [done|]. split; [|apply showSlide_shows].
  rewrite showSlide_length. by apply Nat.mod_upper_bound.
Qed.

Lemma nextSlide_length (h : hero) :
  length (slides (nextSlide h)) = length (slides h).
Proof. apply showSlide_length. Qed.

(** C10. For a non-empty list of slides, after every tick of
    [nextSlide] the counter is an index [k] below [slides.length], slide
    [k] is the only one that carries [opacity-100], and every other
    slide carries [opacity-0]; the list keeps its length. *)
Theorem nextSlide_keeps_one_slide_shown (sl : list classList) (n : nat) :
  sl ≠ [] →
  let h := ticks (S n) (loaded sl) in
  length (slides h) = length sl ∧
  ∃ k, currentSlide h = Num k ∧ k < length (slides h) ∧
       ∀ i cl, slides h !! i = Some cl →
         ("opacity-100" ∈ cl ↔ i = k) ∧ (i ≠ k → "opacity-0" ∈ cl).
Proof.
  intros Hne.
  assert (∀ m, length (slides (ticks m (loaded sl))) = length sl) as Hlen.
  { induction m as [|m IH]; [done|].
    change (ticks (S m) (loaded sl)) with (nextSlide (ticks m (loaded sl))).
    by rewrite nextSlide_length. }
  assert (∀ m, slide_invariant (ticks (S m) (loaded sl))) as Hinv.
  { induction m as [|m IH].
    - apply (nextSlide_invariant _ 0); done.
    - destruct IH as (k & Hk & _ & _).
      change (ticks (S (S m)) (loaded sl)) with (nextSlide (ticks (S m) (loaded sl))).
      apply (nextSlide_invariant _ k); [|done].
      intros E. specialize (Hlen (S m)). rewrite E in Hlen.
      destruct sl; done. }
  intros h. split; [apply Hlen|].
  destruct (Hinv n) as (k & Hk & Hlt & Hshow).
  exists k. split; [done|]. split; [done|].
  intros i cl Hi. destruct (Hshow i cl Hi) as [H100 H0].
  split; [done|]. apply H0.
Qed.

Lemma nextSlide_keeps_one_slide_shown_witness :
  let sl := [["hero-slide"]; ["hero-slide"; "opacity-100"]] in
  sl ≠ [] ∧
  ∃ k, currentSlide (ticks 3 (loaded sl)) = Num k ∧
       k < length (slides (ticks 3 (loaded sl))).
Proof.
  intros sl. assert (sl ≠ []) as Hne by discriminate.
  split; [exact Hne|].
  destruct (nextSlide_keeps_one_slide_shown sl 2 Hne) as [_ (k & Hk & Hlt & _)].
  exists k. split; [exact Hk | exact Hlt].
Defined.

End SlideshowProofs.

Module FsFacts.
Import Fs.

Implicit Types (fs : FS) (p q d : path).

(** *** Deletions *)

Lemma rm_f_other p q fs : p ≠ q → (rm_f p fs).1 !! q = fs !! q.
Proof.
  intros Hne. unfold rm_f. destruct (fs !! p) as [[]|]; cbn; [|done..].
  by apply lookup_delete_ne.
Qed.

Lemma rm_other p q fs : p ≠ q → (rm p fs).1 !! q = fs !! q.
Proof.
  intros Hne. unfold rm. destruct (fs !! p) as [[]|]; cbn; [|done..].
  by apply lookup_delete_ne.
Qed.

Lemma rm_rf_other p q fs : ¬ p `prefix_of` q → (rm_rf p fs).1 !! q = fs !! q.
Proof.
  intros Hne. unfold rm_rf. destruct (fs !! p) as [[]|]; cbn; [done| |done].
  rewrite map_lookup_filter. destruct (fs !! q) as [x|]; [|done]. cbn.
  by rewrite option_guard_True.
Qed.

Lemma rm_f_absent p fs : fs !! p = None → (rm_f p fs).1 = fs.
Proof. intros E. unfold rm_f. by rewrite E. Qed.

Lemma rm_absent p fs : fs !! p = None → (rm p fs).1 = fs.
Proof. intros E. unfold rm. by rewrite E. Qed.

Lemma rm_rf_absent p fs : fs !! p = None → (rm_rf p fs).1 = fs.
Proof. intros E. unfold rm_rf. by rewrite E. Qed.

(** *** [sort -u] keeps the lines, as a set *)

Lemma elem_of_insert_u (x y : string) (l : list string) :
  x ∈ insert_u y l ↔ x = y ∨ x ∈ l.
Proof.
  induction l as [|z l IH]; cbn [insert_u].
  - rewrite list_elem_of_singleton, elem_of_nil. tauto.
  - destruct (String.compare y z) eqn:E.
    + apply String.compare_eq_iff in E as ->. rewrite elem_of_cons. tauto.
    + rewrite elem_of_cons. tauto.
    + rewrite !elem_of_cons, IH. tauto.
Qed.

Lemma elem_of_sort_u (x : string) (l : list string) : x ∈ sort_u l ↔ x ∈ l.
Proof.
  unfold sort_u. induction l as [|y l IH]; [done|].
  cbn [foldr]. by rewrite elem_of_insert_u, IH, elem_of_cons.
Qed.

(** *** What [find] visits *)

Lemma elem_of_directories fs d : d ∈ directories fs ↔ is_dir fs d = true.
Proof.
  unfold directories, is_dir. rewrite elem_of_cons, list_elem_of_fmap.
  destruct d as [|a d]; [tauto|]. split.
  - intros [[=]|([d' x] & -> & Hin)].
    apply list_elem_of_filter in Hin as [Hx Hin]. cbn in Hx. subst x.
    apply elem_of_map_to_list in Hin. cbn. by rewrite Hin.
  - intros H. right. exists (a :: d, Dir). split; [done|].
    apply list_elem_of_filter. split; [done|].
    apply elem_of_map_to_list.
    destruct (fs !! (a :: d)) as [[]|]; done.
Qed.

(** The lines of [my_apps], read off the tree. *)
Lemma elem_of_find_my_apps fs (name : string) :
  name ∈ find_my_apps fs ↔
  ∃ d, is_dir fs d = true ∧ candidate fs d = true ∧ first_field d = name.
Proof.
  unfold find_my_apps. rewrite elem_of_sort_u, list_elem_of_fmap.
  split.
  - intros (d & -> & Hin). apply list_elem_of_filter in Hin as [Hc Hd].
    exists d. by rewrite <- elem_of_directories.
  - intros (d & Hd & Hc & <-). exists d. split; [done|].
    apply list_elem_of_filter. by rewrite elem_of_directories.
Qed.

End FsFacts.

Module ShellFacts.
Import Str Fs Words Shell.
Local Open Scope sh_scope.

Section WithFramework.

Context {Ext : Type}.
Variable manage : option string → list string → world Ext → result Ext.
Variable create_superuser : option string → world Ext → result Ext.

Local Abbreviation exec := (exec manage create_superuser).
Local Abbreviation exec_all := (exec_all manage create_superuser).
Local Abbreviation sem := (sem manage create_superuser).
Local Abbreviation undo_migrations := (undo_migrations manage create_superuser).
Local Abbreviation run := (run manage create_superuser).
Local Abbreviation script := (script manage create_superuser).
Local Abbreviation yields := (yields manage create_superuser).

Implicit Types (s : shell Ext) (c : command) (cs : list command) (w : world Ext).

(** *** Shells up to [$?] *)

Lemma sim_refl s : sim s s.
Proof. done. Qed.

Lemma sim_trans s1 s2 s3 : sim s1 s2 → sim s2 s3 → sim s1 s3.
Proof. intros (?&?&?) (?&?&?). repeat split; congruence. Qed.

(** A command never reads [$?], and always writes it. *)
Lemma exec_sim c s s' : sim s s' → exec c s = exec c s'.
Proof. intros (Hn & He & Hh). unfold Shell.exec. by rewrite Hn, He, Hh. Qed.

Lemma exec_all_cons c cs s : exec_all (c :: cs) s = exec_all cs (exec c s).2.
Proof. done. Qed.

Lemma exec_all_app cs cs' s : exec_all (cs ++ cs') s = exec_all cs' (exec_all cs s).
Proof. unfold Shell.exec_all. apply foldl_app. Qed.

Lemma exec_all_sim cs s s' : sim s s' → sim (exec_all cs s) (exec_all cs s').
Proof.
  destruct cs as [|c cs]; [done|]. intros Hs.
  rewrite !exec_all_cons, (exec_sim c s s' Hs). apply sim_refl.
Qed.

(** *** Programs as lists of commands *)

Lemma yields_ret {A} s0 (a : A) : yields s0 (ret a) [] a.
Proof. intros s Hs. done. Qed.

Lemma yields_bind {A B} s0 (m : Sh Ext A) (k : A → Sh Ext B) cs cs' a b :
  yields s0 m cs a → yields (exec_all cs s0) (k a) cs' b →
  yields s0 (bind m k) (cs ++ cs') b.
Proof.
  intros Hm Hk s Hs. destruct (Hm s Hs) as [Ha Hs'].
  unfold bind. cbn zeta. rewrite Ha, exec_all_app. by apply Hk.
Qed.

Lemma yields_exec s0 c :
  yields s0 (exec c) [c] (output (sem c (environ s0) (now s0))).
Proof. intros s Hs. rewrite (exec_sim c s s0 Hs). done. Qed.

Lemma yields_set_status s0 z : yields s0 (set_status z) [] tt.
Proof. intros s Hs. done. Qed.

Lemma yields_test_f s0 p : yields s0 (test_f p) [] (is_file (files (now s0)) p).
Proof.
  intros s Hs. split; [|exact Hs].
  destruct Hs as (Hn & _ & _). unfold test_f. cbn. by rewrite Hn.
Qed.

Lemma yields_when s0 (cond : bool) (body : Sh Ext unit) cs :
  yields s0 body cs tt → yields s0 (when cond body) (if cond then cs else []) tt.
Proof. intros Hb. destruct cond; [done|]. apply yields_set_status. Qed.

Lemma yields_eq {A} s0 (m : Sh Ext A) cs cs' a :
  yields s0 m cs a → cs = cs' → yields s0 m cs' a.
Proof. by intros ? <-. Qed.

Lemma yields_iterate s0 say apps :
  yields s0 (iterate apps (λ app,
               exec (Echo (say app)) ;;
               exec (Manage ["migrate"; app; "zero"]) ;;
               exec (RmRF [app; "migrations"]) ;;
               ret tt))
         (per_app say apps) tt.
Proof.
  revert s0. induction apps as [|app apps IH]; intros s0; [apply yields_ret|].
  cbn [iterate]. eapply yields_eq.
  - eapply yields_bind; [|apply IH].
    eapply yields_bind; [apply yields_exec|].
    eapply yields_bind; [apply yields_exec|].
    eapply yields_bind; [apply yields_exec|].
    apply yields_ret.
  - reflexivity.
Qed.

Lemma yields_for_in s0 say apps :
  yields s0 (for_in apps (λ app,
               exec (Echo (say app)) ;;
               exec (Manage ["migrate"; app; "zero"]) ;;
               exec (RmRF [app; "migrations"]) ;;
               ret tt))
         (per_app say apps) tt.
Proof.
  destruct apps as [|app apps]; [apply yields_set_status|].
  apply (yields_iterate s0 say (app :: apps)).
Qed.

Ltac step :=
  first
    [ apply yields_ret
    | apply yields_exec
    | apply yields_set_status
    | apply yields_test_f
    | apply (yields_for_in _ removing)
    | apply (yields_for_in _ undoing)
    | apply yields_when
    | eapply yields_bind ].

(** The script runs its commands one after the other, whatever they
    return. *)
Lemma undo_migrations_straight argv w :
  yields (boot w) (undo_migrations argv) (script argv w) tt.
Proof.
  unfold Shell.undo_migrations, Shell.script, remove_app_migrations.
  destruct (String.eqb (nth 0 argv "") "--redo").
  - eapply yields_eq; [repeat step|].
    unfold plan, discovery, preamble, finale, django_apps_of,
      my_apps_of, all_apps_of, preamble.
    cbn [boot now files].
    destruct (is_file (files w) [".env"]); reflexivity.
  - eapply yields_eq; [repeat step|].
    unfold plan, discovery, preamble, finale, django_apps_of,
      my_apps_of, all_apps_of, preamble.
    cbn [boot now files].
    destruct (is_file (files w) [".env"]); reflexivity.
Qed.

Lemma run_straight argv w : sim (run argv w) (exec_all (script argv w) (boot w)).
Proof. apply (undo_migrations_straight argv w (boot w)), sim_refl. Qed.

(** *** What a list of commands leaves behind *)

Lemma commands_exec_all cs s : commands (exec_all cs s) = (commands s ++ cs).
Proof.
  revert s. induction cs as [|c cs IH]; intros s.
  - by rewrite app_nil_r.
  - rewrite exec_all_cons, IH. unfold commands. cbn [Shell.exec snd history].
    by rewrite fmap_app, <- app_assoc.
Qed.

Lemma genuine_exec_all cs s :
  Forall (genuine manage create_superuser) (history s) →
  Forall (genuine manage create_superuser) (history (exec_all cs s)).
Proof.
  revert s. induction cs as [|c cs IH]; intros s Hs; [done|].
  rewrite exec_all_cons. apply IH. cbn [Shell.exec snd history].
  apply Forall_app. split; [done|]. constructor; [|done].
  by exists (environ s).
Qed.

Lemma sem_spares q c env w :
  framework_keeps manage create_superuser q → spares q c →
  files (after (sem c env w)) !! q = files w !! q.
Proof.
  intros [Hm Hs] Hc. destruct c; cbn in *; try done.
  - by apply FsFacts.rm_f_other.
  - by apply FsFacts.rm_rf_other.
  - by apply FsFacts.rm_other.
Qed.

Lemma exec_all_spares q cs s :
  framework_keeps manage create_superuser q → Forall (spares q) cs →
  files (now (exec_all cs s)) !! q = files (now s) !! q.
Proof.
  intros Hk. revert s. induction cs as [|c cs IH]; intros s Hcs; [done|].
  apply Forall_cons in Hcs as [Hc Hcs].
  rewrite exec_all_cons, IH by done. cbn [Shell.exec snd now].
  by apply sem_spares.
Qed.

Lemma linked_snoc w (h : list (event Ext)) (e : event Ext) :
  linked w h (before e) → linked w (h ++ [e]) (after (outcome e)).
Proof.
  revert w. induction h as [|e' h IH]; intros w; cbn.
  - by intros ->.
  - intros [-> Hl]. split; [done|]. by apply IH.
Qed.

Lemma linked_exec_all w0 cs s :
  linked w0 (history s) (now s) →
  linked w0 (history (exec_all cs s)) (now (exec_all cs s)).
Proof.
  revert s. induction cs as [|c cs IH]; intros s Hs; [done|].
  rewrite exec_all_cons. apply IH. cbn [Shell.exec snd history now].
  by apply (linked_snoc w0 (history s) (Event c (now s) _)).
Qed.

(** *** What a run leaves behind *)

Lemma commands_run argv w : commands (run argv w) = script argv w.
Proof.
  destruct (run_straight argv w) as (_ & _ & Hh).
  unfold commands. rewrite Hh. apply (commands_exec_all _ (boot w)).
Qed.

Lemma genuine_run argv w :
  Forall (genuine manage create_superuser) (history (run argv w)).
Proof.
  destruct (run_straight argv w) as (_ & _ & ->).
  apply genuine_exec_all. constructor.
Qed.

Lemma linked_run argv w : linked w (history (run argv w)) (now (run argv w)).
Proof.
  destruct (run_straight argv w) as (-> & _ & ->).
  by apply (linked_exec_all w _ (boot w)).
Qed.

Lemma last_status_run argv w : last_status (run argv w) = 0%Z.
Proof. reflexivity. Qed.

Lemma last_script argv w :
  last (script argv w) = Some (Echo "Finished execution successfully").
Proof.
  unfold Shell.script, plan, finale.
  rewrite !app_assoc, last_app. reflexivity.
Qed.

End WithFramework.

End ShellFacts.

Module FindProofs.
Import Fs FsFacts Sample.

Example find_my_apps_runs :
  find_my_apps tree = ["blog"] ∧ find_my_apps nested = ["config"] ∧
  find_my_apps (<[["__init__.py"] := File ""]> tree) = [""; "blog"] ∧
  find_my_apps (<[[".venv"; "__init__.py"] := File ""]> tree) = [".venv"; "blog"].
Proof. repeat split; by vm_compute. Qed.

(** C3 (as amended). A name is a line of [my_apps] exactly when it is
    the first path component of some directory, at any depth and not
    strictly below [./.venv], that holds a regular file [__init__.py]
    and no regular file [settings.py]; the working directory itself
    counts, under the empty name. In particular every top-level
    directory that holds [__init__.py] and no [settings.py] is in
    [my_apps]. *)
Theorem find_my_apps_first_components (fs : FS) (name : string) :
  (name ∈ find_my_apps fs ↔
   ∃ d, is_dir fs d = true ∧ in_venv d = false ∧
        is_file fs (d ++ ["__init__.py"]) = true ∧
        is_file fs (d ++ ["settings.py"]) = false ∧
        first_field d = name) ∧
  (fs !! [name] = Some Dir ∧
   is_file fs [name; "__init__.py"] = true ∧
   is_file fs [name; "settings.py"] = false →
   name ∈ find_my_apps fs).
Proof.
  assert (∀ d, candidate fs d = true ↔
               in_venv d = false ∧
               is_file fs (d ++ ["__init__.py"]) = true ∧
               is_file fs (d ++ ["settings.py"]) = false) as Hc.
  { intros d. unfold candidate.
    rewrite !andb_true_iff, !negb_true_iff. tauto. }
  split.
  - rewrite elem_of_find_my_apps.
    split; intros (d & Hd & H & Hn); exists d; [apply Hc in H | rewrite Hc]; tauto.
  - intros (Hd & Hi & Hs). apply elem_of_find_my_apps.
    exists [name]. split; [cbn; by rewrite Hd|]. split; [|done].
    apply Hc. done.
Qed.

Lemma find_my_apps_first_components_witness :
  "blog" ∈ find_my_apps tree.
Proof.
  apply (find_my_apps_first_components tree "blog"). by vm_compute.
Defined.

(** C3 (as stated) fails: [config] holds [settings.py], so it is not
    owned in the specification's sense, and yet it is a line of
    [my_apps], through its sub-package [config/utils]. *)
Lemma find_my_apps_counts_nested :
  "config" ∈ find_my_apps nested ∧ ¬ owned_top_level nested "config" ∧
  ¬ ("config" ∈ find_my_apps nested ↔ owned_top_level nested "config").
Proof.
  assert ("config" ∈ find_my_apps nested) as Hin.
  { replace (find_my_apps nested) with ["config"] by (by vm_compute). by left. }
  assert (¬ owned_top_level nested "config") as Hno.
  { intros (_ & _ & _ & Hs). vm_compute in Hs. discriminate Hs. }
  split; [done|]. split; [done|]. intros [H _]. auto.
Qed.

End FindProofs.

Module UndoMigrationsProofs.
Import Str Fs Words Shell FsFacts ShellFacts.

Section WithFramework.

Context {Ext : Type}.
Variable manage : option string → list string → world Ext → result Ext.
Variable create_superuser : option string → world Ext → result Ext.

Local Abbreviation exec_all := (exec_all manage create_superuser).
Local Abbreviation run := (run manage create_superuser).
Local Abbreviation script := (script manage create_superuser).
Local Abbreviation my_apps_of := (my_apps_of manage create_superuser).
Local Abbreviation django_apps_of := (django_apps_of manage create_superuser).
Local Abbreviation genuine := (genuine manage create_superuser).

Implicit Types (s : shell Ext) (c : command) (cs : list command) (w : world Ext).


(** An element of the first part of a list comes before an element of
    the second part. *)
Lemma lookup_app_order {A} (l1 l2 : list A) (x y : A) (i j : nat) :
  x ∉ l2 → y ∉ l1 →
  (l1 ++ l2) !! i = Some x → (l1 ++ l2) !! j = Some y → i < j.
Proof.
  intros Hx Hy Hi Hj.
  apply lookup_app_Some in Hi as [Hi|[_ Hi]];
    [|by apply list_elem_of_lookup_2 in Hi].
  apply lookup_app_Some in Hj as [Hj|[Hj _]];
    [by apply list_elem_of_lookup_2 in Hj|].
  apply lookup_lt_Some in Hi. lia.
Qed.

Lemma elem_of_per_app c say apps :
  c ∈ per_app say apps →
  ∃ app, app ∈ apps ∧
         (c = Echo (say app) ∨ c = Manage ["migrate"; app; "zero"] ∨
          c = RmRF [app; "migrations"]).
Proof.
  unfold per_app. rewrite list_elem_of_bind. intros (app & Hc & Happ).
  exists app. split; [done|].
  rewrite !elem_of_cons, elem_of_nil in Hc. tauto.
Qed.

Lemma elem_of_discovery c (has_env : bool) :
  c ∈ discovery has_env →
  c = Echo "Sourcing .env file..." ∨ c = Source [".env"] ∨
  c = RmF ["db.sqlite3"] ∨ c = Manage ["showmigrations"] ∨ c = Find.
Proof.
  unfold discovery, preamble.
  destruct has_env; cbn; rewrite ?elem_of_cons, elem_of_nil; tauto.
Qed.

(** C4 (as amended). With [--redo], the commands run in this order:
    the applications are enumerated; the owned ones are rolled back and
    their migration directories deleted; migration files are
    regenerated for the owned applications; all pending migrations are
    applied; every other discovered application is rolled back and its
    migration directory deleted; all pending migrations are applied
    again; and only then is the superuser account provisioned. So every
    rollback comes before the account is provisioned. *)
Theorem redo_provisions_superuser_last (argv : list string) w :
  nth 0 argv "" = "--redo" →
  commands (run argv w) =
    (discovery (is_file (files w) [".env"])
     ++ [Echo "Redoing migrations..."; Echo "Creating migrations..."]
     ++ per_app removing (words (my_apps_of w))
     ++ [Manage ("makemigrations" :: words (my_apps_of w)); Manage ["migrate"]]
     ++ per_app undoing (words (django_apps_of w))
     ++ [Manage ["migrate"]; Echo ""; Echo "Creating super superuser...";
         CreateSuperuser; Echo "Super User created...";
         Rm ["error.log"]; Echo "Finished execution successfully"]) ∧
  ∀ i j app,
    commands (run argv w) !! i = Some (Manage ["migrate"; app; "zero"]) →
    commands (run argv w) !! j = Some CreateSuperuser →
    i < j.
Proof.
  intros Hredo.
  assert (commands (run argv w) =
    ((discovery (is_file (files w) [".env"])
      ++ [Echo "Redoing migrations..."; Echo "Creating migrations..."]
      ++ per_app removing (words (my_apps_of w))
      ++ [Manage ("makemigrations" :: words (my_apps_of w)); Manage ["migrate"]]
      ++ per_app undoing (words (django_apps_of w)))
     ++ finale true)) as Hcs.
  { rewrite commands_run. unfold Shell.script, plan. rewrite Hredo.
    cbn [String.eqb Ascii.eqb Bool.eqb]. by rewrite <- !app_assoc. }
  split; [rewrite Hcs; by rewrite <- !app_assoc|].
  intros i j app. rewrite Hcs. apply lookup_app_order.
  - unfold finale. rewrite !elem_of_app, !elem_of_cons, elem_of_nil.
    intros H. decompose [or] H; done.
  - rewrite !elem_of_app. intros [H|[H|[H|[H|H]]]].
    + apply elem_of_discovery in H. decompose [or] H; done.
    + rewrite !elem_of_cons, elem_of_nil in H. decompose [or] H; done.
    + apply elem_of_per_app in H as (a & _ & H). decompose [or] H; done.
    + rewrite !elem_of_cons, elem_of_nil in H. decompose [or] H; done.
    + apply elem_of_per_app in H as (a & _ & H). decompose [or] H; done.
Qed.

(** *** Events *)

Lemma eta_world w : World (files w) (ext w) = w.
Proof. by destruct w. Qed.

Lemma genuine_absent (e : event Ext) : genuine e → target_absent e → unchanged e.
Proof.
  intros [env He]. unfold target_absent, unchanged. rewrite He.
  destruct (cmd e); try done; intros Habs; cbn; unfold on_files; cbn.
  - by rewrite rm_f_absent, eta_world.
  - by rewrite rm_rf_absent, eta_world.
  - by rewrite rm_absent, eta_world.
Qed.


(** *** The paths the script leaves alone *)

Lemma spares_per_app q say apps :
  (∀ app, app ∈ apps → ¬ [app; "migrations"] `prefix_of` q) →
  Forall (spares q) (per_app say apps).
Proof.
  intros H. unfold per_app. apply Forall_bind, Forall_forall.
  intros app Happ. cbn. repeat constructor. by apply H.
Qed.

Lemma spares_script q argv w :
  q ≠ ["db.sqlite3"] → q ≠ ["error.log"] →
  (∀ app, app ∈ words (my_apps_of w) ∨ app ∈ words (django_apps_of w) →
          ¬ [app; "migrations"] `prefix_of` q) →
  Forall (spares q) (script argv w).
Proof.
  intros Hdb Hlog Happs. unfold Shell.script, plan, discovery, preamble, finale.
  assert (Forall (spares q) (per_app removing (words (my_apps_of w)))) as Hmy
    by (apply spares_per_app; auto).
  assert (Forall (spares q) (per_app undoing (words (django_apps_of w)))) as Hdj
    by (apply spares_per_app; auto).
  destruct (is_file (files w) [".env"]), (String.eqb (nth 0 argv "") "--redo");
    rewrite ?Forall_app; repeat split; try done;
    repeat constructor; cbn; congruence.
Qed.

(** C1 (as amended). Where the names [find] reports are plain, a
    complete run, with or without [--redo], leaves a path as it was
    unless the path is [./db.sqlite3] or [./error.log], or lies in
    [./<app>/migrations/] for an application the run enumerated, owned
    or not, or is changed by the framework's own commands. Migration
    files of an application that is not owned are thus left alone
    wherever the framework keeps them, except under
    [./<app>/migrations/] in the working directory. *)
Theorem run_spares_files_elsewhere (argv : list string) w (q : path) :
  plain_names (my_apps_of w) →
  framework_keeps manage create_superuser q →
  q ≠ ["db.sqlite3"] → q ≠ ["error.log"] →
  (∀ app, app ∈ words (my_apps_of w) ∨ app ∈ words (django_apps_of w) →
          ¬ [app; "migrations"] `prefix_of` q) →
  files (now (run argv w)) !! q = files w !! q.
Proof.
  intros _ Hk Hdb Hlog Happs.
  destruct (run_straight manage create_superuser argv w) as (-> & _ & _).
  rewrite (exec_all_spares manage create_superuser q) by (done || by apply spares_script).
  done.
Qed.

(** *** The status check after a redo *)

Variable pending_in : list string → bool.

Local Abbreviation no_pending := (no_pending manage pending_in).

Lemma no_pending_rm_error_log env w :
  status_ignores_error_log manage pending_in →
  no_pending env w →
  no_pending env (after (sem manage create_superuser (Rm ["error.log"]) env w)).
Proof.
  intros Hlog Hw. cbn. unfold on_files, rm.
  destruct (files w !! ["error.log"]) as [[]|]; cbn;
    [by apply Hlog | by rewrite eta_world..].
Qed.

(** C6 (as amended). After a complete run with [--redo] whose final
    [migrate] exited 0, the migration-status check reports no pending
    migration,
    given what the framework's commands promise: a successful [migrate]
    applies every pending migration, provisioning the account unapplies
    none, and the check does not read [error.log]. *)
Theorem redo_leaves_nothing_pending (argv : list string) w :
  migrate_applies_all manage pending_in →
  superuser_keeps_status manage create_superuser pending_in →
  status_ignores_error_log manage pending_in →
  nth 0 argv "" = "--redo" →
  final_migrate_succeeded (run argv w) →
  no_pending (environ (run argv w)) (now (run argv w)).
Proof.
  intros Hmig Hsu Hlog Hredo (e & He & Hok).
  destruct (run_straight manage create_superuser argv w) as (Hnow & Henv & Hhist).
  unfold final_migrate in He. rewrite Hhist in He. rewrite Hnow, Henv.
  clear Hnow Henv Hhist. revert He.
  unfold Shell.script, plan. rewrite Hredo.
  cbn [String.eqb Ascii.eqb Bool.eqb].
  rewrite !app_assoc, exec_all_app.
  set (s := exec_all _ (boot w)).
  unfold finale. cbn. rewrite <- !app_assoc, filter_app. cbn.
  rewrite decide_True by done. rewrite !decide_False by done.
  rewrite last_snoc. intros [= <-]. cbn in Hok.
  apply no_pending_rm_error_log; [done|].
  by apply Hsu, Hmig.
Qed.

End WithFramework.

End UndoMigrationsProofs.

Module SampleRuns.
Import Str Fs Words Shell FsFacts ShellFacts UndoMigrationsProofs.

Local Abbreviation run := (run Sample.manage Sample.create_superuser).
Local Abbreviation my_apps_of := (my_apps_of Sample.manage Sample.create_superuser).
Local Abbreviation django_apps_of := (django_apps_of Sample.manage Sample.create_superuser).

(** *** The sample framework keeps the promises the theorems ask for *)

Lemma sample_keeps_files (q : path) :
  framework_keeps Sample.manage Sample.create_superuser q.
Proof.
  split; [|done]. intros env args w. unfold Sample.manage.
  repeat (case_match; try done).
Qed.

Lemma sample_rollback_nothing env app w :
  Sample.nothing_applied app w →
  after (Sample.manage env ["migrate"; app; "zero"] w) = w.
Proof.
  unfold Sample.nothing_applied. intros Hno. cbn.
  case_bool_decide; [|done]. cbn. destruct w as [fs applied]. cbn in *. f_equal.
  induction applied as [|a applied IH]; [done|].
  apply not_elem_of_cons in Hno as [Hne Hno].
  rewrite filter_cons_True by done. by rewrite IH.
Qed.

Lemma sample_migrate_applies_all :
  migrate_applies_all Sample.manage Sample.pending_in.
Proof. intros env w _. reflexivity. Qed.

Lemma sample_superuser_keeps_status :
  superuser_keeps_status Sample.manage Sample.create_superuser Sample.pending_in.
Proof. intros env w H. exact H. Qed.

Lemma sample_status_ignores_error_log :
  status_ignores_error_log Sample.manage Sample.pending_in.
Proof. intros env w H. exact H. Qed.

Lemma sample_apps :
  my_apps_of Sample.start = ["blog"] ∧
  django_apps_of Sample.start = ["auth"; "legacy"].
Proof. split; by vm_compute. Qed.

(** The sample run with [--redo], command by command. *)
Example sample_redo_commands :
  commands (run ["--redo"] Sample.start) =
  [Echo "Sourcing .env file..."; Source [".env"];
   RmF ["db.sqlite3"]; Manage ["showmigrations"]; Find;
   Echo "Redoing migrations..."; Echo "Creating migrations...";
   Echo "Removing migrations for blog...";
   Manage ["migrate"; "blog"; "zero"]; RmRF ["blog"; "migrations"];
   Manage ["makemigrations"; "blog"]; Manage ["migrate"];
   Echo "Undoing migrations for auth...";
   Manage ["migrate"; "auth"; "zero"]; RmRF ["auth"; "migrations"];
   Echo "Undoing migrations for legacy...";
   Manage ["migrate"; "legacy"; "zero"]; RmRF ["legacy"; "migrations"];
   Manage ["migrate"]; Echo ""; Echo "Creating super superuser...";
   CreateSuperuser; Echo "Super User created...";
   Rm ["error.log"]; Echo "Finished execution successfully"].
Proof. by vm_compute. Qed.

(** The sample run without the flag. *)
Example sample_plain_commands :
  commands (run [] Sample.start) =
  [Echo "Sourcing .env file..."; Source [".env"];
   RmF ["db.sqlite3"]; Manage ["showmigrations"]; Find;
   Echo "Removing migrations for blog...";
   Manage ["migrate"; "blog"; "zero"]; RmRF ["blog"; "migrations"];
   Echo "Undoing migrations for auth...";
   Manage ["migrate"; "auth"; "zero"]; RmRF ["auth"; "migrations"];
   Echo "Undoing migrations for legacy...";
   Manage ["migrate"; "legacy"; "zero"]; RmRF ["legacy"; "migrations"];
   Rm ["error.log"]; Echo "Finished execution successfully"].
Proof. by vm_compute. Qed.

(** *** C4 *)

Lemma redo_provisions_superuser_last_witness :
  nth 0 ["--redo"] "" = "--redo" ∧
  ∀ i j app,
    commands (run ["--redo"] Sample.start) !! i = Some (Manage ["migrate"; app; "zero"]) →
    commands (run ["--redo"] Sample.start) !! j = Some CreateSuperuser →
    i < j.
Proof.
  split; [reflexivity|].
  apply (redo_provisions_superuser_last
           Sample.manage Sample.create_superuser ["--redo"] Sample.start).
  reflexivity.
Defined.

(** C4 (as stated) fails: in the sample run with [--redo], the
    application [auth], which is not owned, is rolled back by the
    command at index 13, and the account is provisioned by the command
    at index 21. *)
Lemma redo_unwinds_before_superuser :
  "auth" ∈ django_apps_of Sample.start ∧
  commands (run ["--redo"] Sample.start) !! 13 = Some (Manage ["migrate"; "auth"; "zero"]) ∧
  commands (run ["--redo"] Sample.start) !! 21 = Some CreateSuperuser ∧
  ¬ superuser_before_unwinding (django_apps_of Sample.start)
      (commands (run ["--redo"] Sample.start)).
Proof.
  assert ("auth" ∈ django_apps_of Sample.start) as Hin.
  { destruct sample_apps as [_ ->]. by left. }
  assert (commands (run ["--redo"] Sample.start) !! 13
          = Some (Manage ["migrate"; "auth"; "zero"])) as H13 by (by vm_compute).
  assert (commands (run ["--redo"] Sample.start) !! 21 = Some CreateSuperuser)
    as H21 by (by vm_compute).
  split; [exact Hin|]. split; [exact H13|]. split; [exact H21|].
  intros H. specialize (H 21 13 "auth" Hin H21 H13). lia.
Qed.

(** *** C1 *)

Lemma run_spares_files_elsewhere_witness :
  files (now (run ["--redo"] Sample.start)) !! Sample.installed_migration
  = files Sample.start !! Sample.installed_migration.
Proof.
  apply (run_spares_files_elsewhere Sample.manage Sample.create_superuser).
  - by vm_compute.
  - apply sample_keeps_files.
  - discriminate.
  - discriminate.
  - destruct sample_apps as [-> ->]. intros app Happ [k Hk].
    unfold Sample.installed_migration in Hk. cbn in Hk. discriminate Hk.
Defined.

(** C1 (as stated) fails: [legacy] is not owned, its migration
    [legacy/migrations/0001_initial.py] sits in the working directory,
    and a run deletes it, with [--redo] and without. *)
Lemma run_deletes_unowned_migrations :
  ("legacy" ∉ my_apps_of Sample.start) ∧
  ("legacy" ∈ django_apps_of Sample.start) ∧
  files Sample.start !! Sample.local_migration = Some (File "legacy 1") ∧
  files (now (run [] Sample.start)) !! Sample.local_migration = None ∧
  files (now (run ["--redo"] Sample.start)) !! Sample.local_migration = None.
Proof.
  destruct sample_apps as [Hmy Hdj]. rewrite Hmy, Hdj.
  split; [by intros [=]%list_elem_of_singleton|].
  split; [by right; left|].
  repeat split; by vm_compute.
Qed.

(** *** C6 *)

Lemma redo_leaves_nothing_pending_witness :
  nth 0 ["--redo"] "" = "--redo" ∧
  no_pending Sample.manage Sample.pending_in
    (environ (run ["--redo"] Sample.start)) (now (run ["--redo"] Sample.start)).
Proof.
  split; [reflexivity|].
  apply (redo_leaves_nothing_pending Sample.manage Sample.create_superuser
           Sample.pending_in ["--redo"] Sample.start).
  - apply sample_migrate_applies_all.
  - apply sample_superuser_keeps_status.
  - apply sample_status_ignores_error_log.
  - reflexivity.
  - eexists. split; by vm_compute.
Defined.

(** C6 (as stated) fails: where the migrations cannot be run every
    [migrate] fails; the script, which stops at no failure, runs on to
    its last line and exits 0, and the status check on what it leaves
    still lists migrations as not applied. The framework keeps the
    three promises all the same. *)
Lemma redo_leaves_pending_when_migrate_fails :
  migrate_applies_all Sample.failing Sample.pending_in ∧
  superuser_keeps_status Sample.failing Sample.create_superuser Sample.pending_in ∧
  status_ignores_error_log Sample.failing Sample.pending_in ∧
  nth 0 ["--redo"] "" = "--redo" ∧
  last (commands (Shell.run Sample.failing Sample.create_superuser ["--redo"] Sample.fresh))
    = Some (Echo "Finished execution successfully") ∧
  exit_status Sample.failing Sample.create_superuser ["--redo"] Sample.fresh = 0%Z ∧
  ¬ no_pending Sample.failing Sample.pending_in
      (environ (Shell.run Sample.failing Sample.create_superuser ["--redo"] Sample.fresh))
      (now (Shell.run Sample.failing Sample.create_superuser ["--redo"] Sample.fresh)).
Proof.
  split; [intros env w H; cbn in H; discriminate H|].
  split; [intros env w H; exact H|].
  split; [intros env w H; exact H|].
  split; [reflexivity|].
  split; [rewrite commands_run; apply last_script|].
  split; [apply last_status_run|].
  unfold no_pending. by vm_compute.
Qed.

(** *** C7 *)


End SampleRuns.

(** ** Which listeners get installed *)

Module ListenerProofs.
Import PasswordToggle Listeners.

(** A listener is installed exactly when its statement is reached: its
    element and the elements of all the statements before it are
    there. *)
Lemma elem_of_install (l : listener) (stmts : list (bool * listener)) :
  l ∈ (install stmts).1 ↔
  ∃ before after, stmts = before ++ (true, l) :: after ∧
                  Forall (λ s, s.1 = true) before.
Proof.
  induction stmts as [|[present l'] rest IH]; cbn [install].
  - split; [by intros ?%elem_of_nil|]. intros (b & a & E & _). by destruct b.
  - destruct present; cbn.
    + rewrite elem_of_cons, IH. split.
      * intros [->|(b & a & -> & Hb)].
        -- exists [], rest. by split.
        -- exists ((true, l') :: b), a. split; [done|]. by constructor.
      * intros (b & a & E & Hb). destruct b as [|s b]; simplify_eq/=.
        -- by left.
        -- right. exists b, a. split; [done|].
           by apply Forall_cons in Hb as [_ Hb].
    + split; [by intros ?%elem_of_nil|].
      intros (b & a & E & Hb). destruct b as [|s b]; simplify_eq/=.
      by apply Forall_cons in Hb as [Hb _].
Qed.

(** The statements all ran exactly when no element was missing. *)
Lemma install_normal (stmts : list (bool * listener)) :
  (install stmts).2 = Normal ↔ Forall (λ s, s.1 = true) stmts.
Proof.
  induction stmts as [|[present l'] rest IH]; cbn [install].
  - split; [constructor | done].
  - destruct present; cbn.
    + rewrite IH, Forall_cons. cbn. tauto.
    + split; [done|]. by intros [? _]%Forall_cons.
Qed.

(** X1. In [password_toggle.js], the listener of [#togglePassword] is
    installed when that button exists; the listener of
    [#toggleConfirmPassword] is installed only when both buttons exist:
    without [#togglePassword] the handler throws before it reaches the
    second button. *)
Theorem password_listeners_installed (d : document) :
  (TogglePasswordClick ∈ (password_loaded d).1 ↔ togglePassword d = true) ∧
  (ToggleConfirmPasswordClick ∈ (password_loaded d).1 ↔
   togglePassword d = true ∧ toggleConfirmPassword d = true) ∧
  ((password_loaded d).2 = TypeError ↔
   togglePassword d = false ∨ toggleConfirmPassword d = false).
Proof.
  unfold password_loaded.
  destruct (togglePassword d), (toggleConfirmPassword d); cbn;
    rewrite ?elem_of_cons, ?elem_of_nil; intuition congruence.
Qed.

(** X2. The site script, with or without the dashboard part, installs
    nothing at all on a page without [#mobile-menu-button]: its first
    statement throws. With the dashboard part, the slideshow timer runs
    exactly on the pages with that button, the second password listener
    needs both password buttons besides, and the listeners of
    [#user-menu-button] and of [window] are installed only when
    [#mobile-menu-button], [#hamburger] and [#user-menu-button] are all
    there. *)
Theorem dashboard_listeners_installed (d : document) :
  (mobile_menu_button d = false → site_listeners d = [] ∧ dashboard_listeners d = []) ∧
  (SlideTimer ∈ dashboard_listeners d ↔ mobile_menu_button d = true) ∧
  (ToggleConfirmPasswordClick ∈ dashboard_listeners d ↔
   mobile_menu_button d = true ∧ togglePassword d = true ∧
   toggleConfirmPassword d = true) ∧
  (UserMenuButtonClick ∈ dashboard_listeners d ↔
   mobile_menu_button d = true ∧ hamburger d = true ∧ user_menu_button d = true) ∧
  (WindowClick ∈ dashboard_listeners d ↔
   mobile_menu_button d = true ∧ hamburger d = true ∧ user_menu_button d = true).
Proof.
  destruct d as [[] [] [] [] []];
    set (L := dashboard_listeners _); vm_compute in L; subst L;
    set (L := site_listeners _); vm_compute in L; subst L; cbn;
    rewrite ?elem_of_cons, ?elem_of_nil; intuition congruence.
Qed.

End ListenerProofs.

(** ** The dashboard: sidebar and user menu *)

Module DomMoreFacts.
Import Dom DomFacts.

Lemma remove_NoDup (token : string) (cl : classList) : NoDup cl → NoDup (remove token cl).
Proof. apply NoDup_filter. Qed.

Lemma add_NoDup (token : string) (cl : classList) : NoDup cl → NoDup (add token cl).
Proof.
  intros H. unfold add. case_decide; [done|].
  apply NoDup_app. split; [done|]. split; [|apply NoDup_singleton].
  intros x Hx ->%list_elem_of_singleton. done.
Qed.

Lemma toggle_NoDup (token : string) (cl : classList) : NoDup cl → NoDup (toggle token cl).
Proof.
  intros H. unfold toggle. case_decide; [by apply remove_NoDup|].
  apply NoDup_app. split; [done|]. split; [|apply NoDup_singleton].
  intros x Hx ->%list_elem_of_singleton. done.
Qed.

Lemma toggle_force_NoDup (token : string) (force : bool) (cl : classList) :
  NoDup cl → NoDup (toggle_force token force cl).
Proof. destruct force; [apply add_NoDup | apply remove_NoDup]. Qed.

(** Adding a present token and removing an absent one change nothing. *)
Lemma add_present (token : string) (cl : classList) : token ∈ cl → add token cl = cl.
Proof. intros H. unfold add. by rewrite decide_True. Qed.

Lemma remove_absent (token : string) (cl : classList) : token ∉ cl → remove token cl = cl.
Proof.
  intros H. unfold remove, classList in *. induction cl as [|t cl IH]; [done|].
  apply not_elem_of_cons in H as [Hne H].
  rewrite filter_cons. rewrite decide_True by (by intros ->). by rewrite IH.
Qed.

(** The tokens a predicate keeps, when it rejects the token added or
    removed. *)
Lemma filter_remove (P : string → Prop) `{!∀ x, Decision (P x)}
    (token : string) (cl : classList) :
  ¬ P token → filter P (remove token cl) = filter P cl.
Proof.
  intros HP. unfold remove, classList in *. induction cl as [|t cl IH]; [done|].
  rewrite (filter_cons (λ t, t ≠ token)), (filter_cons P).
  destruct (decide (t ≠ token)) as [Hne|Heq].
  - rewrite (filter_cons P). by rewrite IH.
  - apply dec_stable in Heq as ->. by rewrite decide_False.
Qed.

Lemma filter_add (P : string → Prop) `{!∀ x, Decision (P x)}
    (token : string) (cl : classList) :
  ¬ P token → filter P (add token cl) = filter P cl.
Proof.
  intros HP. unfold add, classList in *. case_decide; [done|].
  rewrite filter_app, (filter_cons P), decide_False by done.
  by rewrite filter_nil, app_nil_r.
Qed.

Lemma filter_toggle_force (P : string → Prop) `{!∀ x, Decision (P x)}
    (token : string) (force : bool) (cl : classList) :
  ¬ P token → filter P (toggle_force token force cl) = filter P cl.
Proof. intros HP. destruct force; [by apply filter_add | by apply filter_remove]. Qed.

End DomMoreFacts.

Module DashboardProofs.
Import Dom DomFacts DomMoreFacts Dashboard.

(** X3. A click that lands outside [#user-menu-button] and outside
    [#user-menu] leaves the user menu hidden, whatever it was, and a
    second such click changes nothing more; when it lands in
    [#hamburger] it toggles the sidebar as well. A click inside the
    user menu changes nothing. *)
Theorem click_outside_hides_user_menu (t : target) (d : dashboard) :
  in_userMenuButton t = false →
  (in_userMenu t = false →
   "hidden" ∈ userMenu (click t d) ∧
   userMenu (click t (click t d)) = userMenu (click t d) ∧
   (∀ c, c ≠ "hidden" → c ∈ userMenu (click t d) ↔ c ∈ userMenu d) ∧
   (in_hamburger t = true →
    ∀ c, c ∈ sidebar (click t d) ↔
         (c = "sidebar-closed" ∧ "sidebar-closed" ∉ sidebar d) ∨
         (c ≠ "sidebar-closed" ∧ c ∈ sidebar d))) ∧
  (in_userMenu t = true → in_hamburger t = false → click t d = d).
Proof.
  intros Hb. unfold click, window_click. rewrite Hb. split.
  - intros Hm. rewrite Hm. cbn.
    destruct (in_hamburger t); cbn.
    + split; [apply elem_of_add; by left|].
      split; [apply add_present, elem_of_add; by left|].
      split; [|intros _ c; apply elem_of_toggle].
      intros c Hc. rewrite elem_of_add. tauto.
    + split; [apply elem_of_add; by left|].
      split; [apply add_present, elem_of_add; by left|].
      split; [|done].
      intros c Hc. rewrite elem_of_add. tauto.
  - intros Hm Hh. by rewrite Hm, Hh.
Qed.

Lemma click_outside_hides_user_menu_witness :
  "hidden" ∈ userMenu (click (Target true false false)
                             (Dashboard ["sidebar"] ["menu"])).
Proof.
  exact (proj1 (proj1 (click_outside_hides_user_menu (Target true false false)
                         (Dashboard ["sidebar"] ["menu"]) eq_refl) eq_refl)).
Defined.

(** X4. A click on [#user-menu-button] flips the [hidden] class of the
    user menu and of nothing else: the listener of [window], which the
    same click reaches, does not hide the menu again. Two such clicks
    give every class back. *)
Theorem click_button_toggles_user_menu (t : target) (d : dashboard) :
  in_userMenuButton t = true →
  ("hidden" ∈ userMenu (click t d) ↔ "hidden" ∉ userMenu d) ∧
  (∀ c, c ≠ "hidden" → c ∈ userMenu (click t d) ↔ c ∈ userMenu d) ∧
  (∀ c, c ∈ userMenu (click t (click t d)) ↔ c ∈ userMenu d) ∧
  (NoDup (userMenu d) → NoDup (userMenu (click t d))).
Proof.
  intros Hb. unfold click, window_click. rewrite Hb. cbn.
  destruct (in_hamburger t); cbn.
  all: split; [rewrite elem_of_toggle; tauto|].
  all: split; [intros c Hc; rewrite elem_of_toggle; tauto|].
  all: split; [|apply toggle_NoDup].
  all: intros c; rewrite !elem_of_toggle;
    destruct (decide (c = "hidden")) as [->|]; destruct (decide ("hidden" ∈ userMenu d));
    tauto.
Qed.

Lemma click_button_toggles_user_menu_witness :
  "hidden" ∈ userMenu (click (Target false true false) (Dashboard [] ["menu"])).
Proof.
  apply (proj1 (click_button_toggles_user_menu (Target false true false)
                  (Dashboard [] ["menu"]) eq_refl)).
  intros H%list_elem_of_singleton. discriminate H.
Defined.

End DashboardProofs.

(** ** The password handlers and the slideshow, further *)

Module PasswordHandlersProofs.
Import Dom DomFacts DomMoreFacts PasswordToggle.

Lemma confirm_click_type (p : page) :
  confirmPasswordField (toggleConfirmPassword_click p).1 =
  if String.eqb (confirmPasswordField p) "password" then "text" else "password".
Proof. unfold toggleConfirmPassword_click. by destruct (toggleConfirmPassword_i p). Qed.

(** X5. The two click handlers do not interfere: a click on
    [toggleConfirmPassword] leaves the password field and the icon of
    [togglePassword] as they are, a click on [togglePassword] leaves the
    confirmation field and its icon as they are, and the two clicks give
    the same page in either order. *)
Theorem toggle_handlers_independent (p : page) :
  (passwordField (toggleConfirmPassword_click p).1 = passwordField p ∧
   togglePassword_i (toggleConfirmPassword_click p).1 = togglePassword_i p) ∧
  (confirmPasswordField (togglePassword_click p).1 = confirmPasswordField p ∧
   toggleConfirmPassword_i (togglePassword_click p).1 = toggleConfirmPassword_i p) ∧
  (toggleConfirmPassword_click (togglePassword_click p).1).1 =
  (togglePassword_click (toggleConfirmPassword_click p).1).1.
Proof.
  unfold togglePassword_click, toggleConfirmPassword_click.
  destruct p as [ty cty [i|] [ci|]]; cbn; done.
Qed.

(** X6. One click on [togglePassword], with the icon in place, flips
    both icon classes: [fa-eye] is there afterwards exactly when it was
    not before, and so is [fa-eye-slash]; every other class of the icon
    stays, and no class is duplicated. *)
Theorem togglePassword_click_flips_icon (p : page) (cl : classList) :
  togglePassword_i p = Some cl →
  ∃ cl1, togglePassword_i (togglePassword_click p).1 = Some cl1 ∧
         ("fa-eye" ∈ cl1 ↔ "fa-eye" ∉ cl) ∧
         ("fa-eye-slash" ∈ cl1 ↔ "fa-eye-slash" ∉ cl) ∧
         (∀ t, t ≠ "fa-eye" → t ≠ "fa-eye-slash" → t ∈ cl1 ↔ t ∈ cl) ∧
         (NoDup cl → NoDup cl1).
Proof.
  intros Hicon. unfold togglePassword_click. rewrite Hicon. cbn.
  eexists. split; [done|].
  assert ("fa-eye" ≠ "fa-eye-slash") as Hne by discriminate.
  assert ("fa-eye-slash" ≠ "fa-eye") as Hne' by discriminate.
  split; [|split; [|split]].
  - rewrite !elem_of_toggle. tauto.
  - rewrite !elem_of_toggle.
    destruct (decide ("fa-eye-slash" ∈ cl)); tauto.
  - intros t H1 H2. rewrite !elem_of_toggle. tauto.
  - intros Hnd. by apply toggle_NoDup, toggle_NoDup.
Qed.

Lemma togglePassword_click_flips_icon_witness :
  ∃ cl1, togglePassword_i
           (togglePassword_click
              (Page "password" "password" (Some ["fas"; "fa-eye"]) None)).1 = Some cl1 ∧
         ("fa-eye" ∈ cl1 ↔ "fa-eye" ∉ ["fas"; "fa-eye"]).
Proof.
  destruct (togglePassword_click_flips_icon
              (Page "password" "password" (Some ["fas"; "fa-eye"]) None)
              ["fas"; "fa-eye"] eq_refl) as (cl1 & H1 & H2 & _).
  exists cl1. split; [exact H1 | exact H2].
Defined.

(** X7. Whatever the page, a click on [togglePassword] leaves the field
    with type ["text"] or ["password"], and a third click gives the type
    the first one gave. When the button has no [<i>] the handler throws,
    yet the type has been flipped by then, and nothing else on the page
    has changed. *)
Theorem togglePassword_click_type_settles (p : page) :
  let click q := (togglePassword_click q).1 in
  (passwordField (click p) = "text" ∨ passwordField (click p) = "password") ∧
  passwordField (click (click (click p))) = passwordField (click p) ∧
  ((togglePassword_click p).2 = TypeError ↔ togglePassword_i p = None) ∧
  (togglePassword_i p = None →
   click p = Page (if String.eqb (passwordField p) "password" then "text" else "password")
                  (confirmPasswordField p) None (toggleConfirmPassword_i p)).
Proof.
  intros click. subst click. cbn beta.
  rewrite !PasswordToggleProofs.click_type.
  split; [|split; [|split]].
  - destruct (String.eqb (passwordField p) "password"); auto.
  - by destruct (String.eqb (passwordField p) "password").
  - unfold togglePassword_click. destruct (togglePassword_i p); cbn; split; done.
  - intros Hnone. unfold togglePassword_click. by rewrite Hnone.
Qed.

(** X8. The handler of [toggleConfirmPassword] behaves on the
    confirmation field as the one of [togglePassword] on the password
    field: with the icon in place, a type ["password"] becomes ["text"]
    and any other type ["password"], and from ["password"] or ["text"]
    two clicks complete normally and give back the type and the classes
    of the icon. *)
Theorem toggleConfirmPassword_click_involution (p : page) (cl : classList) :
  toggleConfirmPassword_i p = Some cl →
  let p1 := (toggleConfirmPassword_click p).1 in
  let p2 := (toggleConfirmPassword_click p1).1 in
  ((confirmPasswordField p = "password" → confirmPasswordField p1 = "text") ∧
   (confirmPasswordField p ≠ "password" → confirmPasswordField p1 = "password")) ∧
  (confirmPasswordField p = "password" ∨ confirmPasswordField p = "text" →
   (toggleConfirmPassword_click p).2 = Normal ∧
   (toggleConfirmPassword_click p1).2 = Normal ∧
   confirmPasswordField p2 = confirmPasswordField p ∧
   ∃ cl2, toggleConfirmPassword_i p2 = Some cl2 ∧ ∀ t, t ∈ cl2 ↔ t ∈ cl).
Proof.
  intros Hicon p1 p2.
  assert (toggleConfirmPassword_i p1 = Some (toggle "fa-eye-slash" (toggle "fa-eye" cl)) ∧
          (toggleConfirmPassword_click p).2 = Normal) as [Hicon1 Hn1].
  { subst p1. unfold toggleConfirmPassword_click. by rewrite Hicon. }
  split.
  - subst p1. rewrite confirm_click_type.
    split; [intros ->; done|].
    intros Hne. by destruct (String.eqb_spec (confirmPasswordField p) "password").
  - intros Hty. split; [done|].
    split; [unfold toggleConfirmPassword_click; by rewrite Hicon1|].
    split.
    + subst p2 p1. rewrite !confirm_click_type. by destruct Hty as [-> | ->].
    + eexists. split.
      * subst p2. unfold toggleConfirmPassword_click at 1. by rewrite Hicon1.
      * intros t. apply elem_of_toggle_twice.
Qed.

Lemma toggleConfirmPassword_click_involution_witness :
  let p := Page "password" "password" None (Some ["fas"; "fa-eye"]) in
  confirmPasswordField (toggleConfirmPassword_click (toggleConfirmPassword_click p).1).1
  = "password".
Proof.
  intros p.
  pose proof (toggleConfirmPassword_click_involution p ["fas"; "fa-eye"] eq_refl) as [_ H].
  destruct (H (or_introl eq_refl)) as (_ & _ & Hty & _). exact Hty.
Defined.

End PasswordHandlersProofs.

Module SlideshowMoreProofs.
Import Dom DomFacts DomMoreFacts Slideshow.

Lemma ticks_S (n : nat) (h : hero) : ticks (S n) h = nextSlide (ticks n h).
Proof. done. Qed.

Lemma length_ticks (n : nat) (h : hero) :
  length (slides (ticks n h)) = length (slides h).
Proof.
  induction n as [|n IH]; [done|].
  rewrite ticks_S. unfold nextSlide. cbn [slides]. by rewrite SlideshowProofs.showSlide_length.
Qed.

(** X9. The slides are shown in turn and the show wraps around: for a
    non-empty list, after [n] ticks the counter is [n] modulo the number
    of slides. *)
Theorem ticks_counter (sl : list classList) (n : nat) :
  sl ≠ [] →
  currentSlide (ticks n (loaded sl)) = Num (n mod length sl).
Proof.
  intros Hne.
  assert (length sl ≠ 0) as Hlen by (by destruct sl).
  induction n as [|n IH].
  - cbn. by rewrite Nat.Div0.mod_0_l.
  - rewrite ticks_S. unfold nextSlide. cbn [currentSlide].
    rewrite IH, length_ticks. cbn [succ loaded slides].
    rewrite SlideshowProofs.rem_Num by done. f_equal.
    rewrite <- Nat.add_1_r.
    rewrite Nat.Div0.add_mod_idemp_l. by rewrite Nat.add_1_r.
Qed.

Lemma ticks_counter_witness :
  currentSlide (ticks 5 (loaded [["hero-slide"]; ["hero-slide"]; ["hero-slide"]])) = Num 2.
Proof.
  apply (ticks_counter [["hero-slide"]; ["hero-slide"]; ["hero-slide"]] 5). discriminate.
Defined.

(** X10. On a page without any [.hero-slide] the first tick turns the
    counter into [NaN] (a remainder by zero), and it stays so at every
    later tick; no class list is touched, there being none. *)
Theorem ticks_without_slides (n : nat) :
  ticks (S n) (loaded []) = Hero [] NaN.
Proof.
  induction n as [|n IH]; [done|].
  rewrite ticks_S, IH. done.
Qed.

(** X11. A tick touches only the two opacity classes: every slide keeps
    all its other classes, in their order, and a class list without
    duplicates stays so. *)
Theorem nextSlide_keeps_other_classes (h : hero) (i : nat) (cl : classList) :
  slides h !! i = Some cl →
  ∃ cl', slides (nextSlide h) !! i = Some cl' ∧
         filter (λ c, c ≠ "opacity-100" ∧ c ≠ "opacity-0") cl' =
         filter (λ c, c ≠ "opacity-100" ∧ c ≠ "opacity-0") cl ∧
         (NoDup cl → NoDup cl').
Proof.
  intros Hi. unfold nextSlide, showSlide. cbn [slides].
  rewrite list_lookup_imap, Hi. cbn. eexists. split; [done|]. split.
  - rewrite !filter_toggle_force; [done|tauto|tauto].
  - intros Hnd. by apply toggle_force_NoDup, toggle_force_NoDup.
Qed.

Lemma nextSlide_keeps_other_classes_witness :
  ∃ cl', slides (nextSlide (loaded [["hero-slide"; "opacity-0"]])) !! 0 = Some cl' ∧
         filter (λ c, c ≠ "opacity-100" ∧ c ≠ "opacity-0") cl' =
         filter (λ c, c ≠ "opacity-100" ∧ c ≠ "opacity-0") ["hero-slide"; "opacity-0"].
Proof.
  destruct (nextSlide_keeps_other_classes (loaded [["hero-slide"; "opacity-0"]]) 0
              ["hero-slide"; "opacity-0"] eq_refl) as (cl' & H1 & H2 & _).
  exists cl'. split; [exact H1 | exact H2].
Defined.

End SlideshowMoreProofs.

(** ** Labels, patterns and the order of [my_apps] *)

Module WordsFacts.
Import Str StrFacts Words Readings.

Lemma contains_empty (hay : string) : contains "" hay = true.
Proof. destruct hay; reflexivity. Qed.

Lemma prefix_refl (s : string) : String.prefix s s = true.
Proof. induction s as [|a s IH]; [done|]. apply prefix_cons. done. Qed.

Lemma contains_refl (s : string) : contains s s = true.
Proof. destruct s; cbn [contains]; rewrite prefix_refl; done. Qed.

Lemma lower_prefix_lower (line : string) (c : ascii) :
  has_char c (lower_prefix line) = true → is_lower c = true.
Proof.
  induction line as [|a line IH]; cbn [lower_prefix]; [done|].
  destruct (is_lower a) eqn:Ha; [|done].
  cbn [has_char]. intros [Hc|Hc]%orb_true_iff; [|auto].
  apply Ascii.eqb_eq in Hc. by subst.
Qed.

Lemma lower_prefix_prefix (line : string) :
  String.prefix (lower_prefix line) line = true.
Proof.
  induction line as [|a line IH]; cbn [lower_prefix]; [done|].
  destruct (is_lower a); [by apply prefix_cons | apply prefix_empty].
Qed.

(** A word of lower-case letters followed by another character is cut
    after the word. *)
Lemma lower_prefix_cut (a : string) (c : ascii) (rest : string) :
  (∀ x, has_char x a = true → is_lower x = true) → is_lower c = false →
  lower_prefix (a +:+ String c rest) = a.
Proof.
  intros Ha Hc. induction a as [|x a IH]; rewrite ?app_nil_s, ?app_cons_s;
    cbn [lower_prefix].
  - by rewrite Hc.
  - rewrite (Ha x) by (cbn [has_char]; by rewrite Ascii.eqb_refl).
    rewrite IH; [done|]. intros y Hy. apply Ha. cbn [has_char]. rewrite Hy.
    apply orb_true_r.
Qed.

Lemma elem_of_grep_o_lower (a : string) (lines : list string) :
  a ∈ grep_o_lower lines ↔ a ≠ "" ∧ ∃ line, line ∈ lines ∧ a = lower_prefix line.
Proof.
  unfold grep_o_lower. rewrite list_elem_of_filter, list_elem_of_fmap.
  split; intros [Hne (line & H1 & H2)]; (split; [done|]); by exists line.
Qed.

Lemma elem_of_grep_v_f (l : string) (pats lines : list string) :
  l ∈ grep_v_f pats lines ↔
  l ∈ lines ∧ ∀ p, p ∈ pats → contains p l = false.
Proof.
  unfold grep_v_f. rewrite list_elem_of_filter.
  split.
  - intros [H1 H2]. split; [done|].
    intros p Hp. destruct (contains p l) eqn:E; [|done].
    assert (existsb (λ p, contains p l) pats = true) as Hex; [|congruence].
    apply existsb_exists. exists p. split; [by apply list_elem_of_In | done].
  - intros [H1 H2]. split; [|done].
    destruct (existsb _ pats) eqn:E; [|done].
    apply existsb_exists in E as (p & Hp%list_elem_of_In & Hc).
    rewrite H2 in Hc by done. done.
Qed.

Lemma elem_of_patterns (a : string) (lines : list string) :
  a ∈ lines → a ∈ patterns lines.
Proof. destruct lines; [by intros ?%elem_of_nil | done]. Qed.

Lemma elem_of_words (a : string) (lines : list string) :
  a ∈ words lines ↔ a ≠ "" ∧ a ∈ lines.
Proof. unfold words. by rewrite list_elem_of_filter. Qed.

End WordsFacts.

Module SortFacts.
Import Fs FsFacts Readings.

Lemma ascii_compare_trans (a b c : ascii) :
  Ascii.compare a b = Lt → Ascii.compare b c = Lt → Ascii.compare a c = Lt.
Proof.
  unfold Ascii.compare. rewrite !N.compare_lt_iff. lia.
Qed.

Lemma compare_refl (x : string) : String.compare x x = Eq.
Proof.
  induction x as [|a x IH]; [done|]. cbn [String.compare].
  unfold Ascii.compare. by rewrite N.compare_refl.
Qed.

Lemma compare_trans (x y z : string) :
  String.compare x y = Lt → String.compare y z = Lt → String.compare x z = Lt.
Proof.
  revert y z. induction x as [|a x IH]; intros [|b y] [|c z]; cbn [String.compare];
    try done.
  destruct (Ascii.compare a b) eqn:Hab; [| |done].
  - apply Ascii.compare_eq_iff in Hab as ->.
    destruct (Ascii.compare b c); [apply IH|done|done].
  - intros _. destruct (Ascii.compare b c) eqn:Hbc; [| |done].
    + apply Ascii.compare_eq_iff in Hbc as <-. by rewrite Hab.
    + by rewrite (ascii_compare_trans a b c).
Qed.

Lemma compare_Gt (x y : string) : String.compare x y = Gt → String.compare y x = Lt.
Proof. rewrite String.compare_antisym. by destruct (String.compare y x). Qed.

Lemma ascending_insert_u (x : string) (l : list string) :
  ascending l → ascending (insert_u x l).
Proof.
  induction l as [|y l IH]; cbn [insert_u ascending].
  - done.
  - intros [Hy Hl]. destruct (String.compare x y) eqn:E; cbn [ascending].
    + done.
    + split; [|done]. constructor; [done|].
      eapply Forall_impl; [exact Hy|]. intros z Hz. by apply (compare_trans x y z).
    + split; [|auto]. apply Forall_forall. intros z [->|Hz]%elem_of_insert_u.
      * by apply compare_Gt.
      * by apply (proj1 (Forall_forall _ _) Hy).
Qed.

Lemma ascending_sort_u (l : list string) : ascending (sort_u l).
Proof.
  induction l as [|x l IH]; [done|]. cbn [sort_u foldr]. by apply ascending_insert_u.
Qed.

Lemma ascending_NoDup (l : list string) : ascending l → NoDup l.
Proof.
  induction l as [|x l IH]; [constructor|].
  intros [Hx Hl]. constructor; [|auto].
  intros Hin. apply (proj1 (Forall_forall _ _) Hx) in Hin.
  by rewrite compare_refl in Hin.
Qed.

(** X12. No line occurs twice in [my_apps], in whatever order the
    lines come out: [sort -u] keeps one line of each name, however many
    packages of the application [find] has met. Occurring at all is
    settled by [find] alone. *)
Theorem find_my_apps_NoDup (fs : FS) :
  NoDup (find_my_apps fs) ∧
  ∀ name, name ∈ find_my_apps fs ↔
          name ∈ first_field <$> filter (λ d, candidate fs d = true) (directories fs).
Proof.
  split; [apply ascending_NoDup, ascending_sort_u | intros name; apply elem_of_sort_u].
Qed.

End SortFacts.

(** ** Further readings of a run of [undo_migrations.sh] *)

Module ReadingsProofs.
Import Str StrFacts Fs Words Shell FsFacts ShellFacts WordsFacts Readings.

Section WithFramework.

Context {Ext : Type}.
Variable manage : option string → list string → world Ext → result Ext.
Variable create_superuser : option string → world Ext → result Ext.

Local Abbreviation exec := (exec manage create_superuser).
Local Abbreviation exec_all := (exec_all manage create_superuser).
Local Abbreviation sem := (sem manage create_superuser).
Local Abbreviation run := (run manage create_superuser).
Local Abbreviation script := (script manage create_superuser).
Local Abbreviation all_apps_of := (all_apps_of manage create_superuser).
Local Abbreviation my_apps_of := (my_apps_of manage create_superuser).
Local Abbreviation django_apps_of := (django_apps_of manage create_superuser).

Implicit Types (s : shell Ext) (c : command) (cs : list command) (w : world Ext).

Lemma elem_of_per_app_iff c say apps :
  c ∈ per_app say apps ↔
  ∃ app, app ∈ apps ∧
         (c = Echo (say app) ∨ c = Manage ["migrate"; app; "zero"] ∨
          c = RmRF [app; "migrations"]).
Proof.
  unfold per_app. rewrite list_elem_of_bind.
  split; intros (app & H1 & H2).
  - exists app. split; [done|].
    rewrite !elem_of_cons, elem_of_nil in H1. tauto.
  - exists app. split; [|done].
    rewrite !elem_of_cons, elem_of_nil. tauto.
Qed.

Lemma elem_of_discovery_cases c (has_env : bool) :
  c ∈ discovery has_env →
  c = Echo "Sourcing .env file..." ∨ c = Source [".env"] ∨
  c = RmF ["db.sqlite3"] ∨ c = Manage ["showmigrations"] ∨ c = Find.
Proof.
  unfold discovery, preamble. destruct has_env;
    rewrite ?elem_of_app, !elem_of_cons, ?elem_of_nil; tauto.
Qed.

Lemma elem_of_plain_script c argv w :
  nth 0 argv "" ≠ "--redo" →
  c ∈ script argv w →
  c ∈ discovery (is_file (files w) [".env"]) ∨
  c ∈ per_app removing (words (my_apps_of w)) ∨
  c ∈ per_app undoing (words (django_apps_of w)) ∨
  c = Rm ["error.log"] ∨ c = Echo "Finished execution successfully".
Proof.
  intros Hredo. unfold script, plan, finale.
  destruct (String.eqb_spec (nth 0 argv "") "--redo") as [|_]; [done|].
  rewrite !elem_of_app, !elem_of_cons, elem_of_nil. tauto.
Qed.

(** X13. The flag counts only as the first argument, written exactly
    [--redo]: with anything else the script runs as with no argument at
    all, and then none of its commands regenerates or applies
    migrations or provisions the account; the framework is only asked
    for the status report and for rollbacks to [zero]. *)
Theorem plain_run_builds_nothing (argv : list string) w :
  nth 0 argv "" ≠ "--redo" →
  run argv w = run [] w ∧
  ∀ c, c ∈ commands (run argv w) →
    ¬ builds c ∧
    ∀ args, c = Manage args →
      args = ["showmigrations"] ∨ ∃ app, args = ["migrate"; app; "zero"].
Proof.
  intros Hredo. split.
  - unfold Shell.run, undo_migrations.
    destruct (String.eqb_spec (nth 0 argv "") "--redo") as [|_]; [done|]. done.
  - intros c. rewrite commands_run. intros Hc.
    apply elem_of_plain_script in Hc; [|done].
    assert (c = Manage ["showmigrations"] ∨
            (∃ app, c = Manage ["migrate"; app; "zero"]) ∨
            (∃ line, c = Echo line) ∨ (∃ p, c = Source p) ∨ (∃ p, c = RmF p) ∨
            (∃ p, c = RmRF p) ∨ (∃ p, c = Rm p) ∨ c = Find) as Hcases.
    { destruct Hc as [Hc|[Hc|[Hc|[->| ->]]]].
      - apply elem_of_discovery_cases in Hc.
        destruct Hc as [->|[->|[->|[->| ->]]]]; eauto 10.
      - apply elem_of_per_app_iff in Hc as (app & _ & [->|[->| ->]]); eauto 10.
      - apply elem_of_per_app_iff in Hc as (app & _ & [->|[->| ->]]); eauto 10.
      - eauto 10.
      - eauto 10. }
    split.
    + unfold builds.
      destruct Hcases as [->|[[? ->]|[[? ->]|[[? ->]|[[? ->]|[[? ->]|[[? ->]| ->]]]]]]];
        intros [H|[H|[apps H]]]; discriminate H.
    + intros args ->.
      destruct Hcases as [H|[[app H]|[[? H]|[[? H]|[[? H]|[[? H]|[[? H]| H]]]]]]];
        try discriminate H.
      * left. congruence.
      * right. exists app. congruence.
Qed.

Lemma elem_of_script_RmRF argv w (p : path) :
  RmRF p ∈ script argv w →
  ∃ app, p = [app; "migrations"] ∧
         (app ∈ words (my_apps_of w) ∨ app ∈ words (django_apps_of w)).
Proof.
  unfold Shell.script, plan, finale. fold my_apps_of django_apps_of.
  rewrite !elem_of_app. intros [Hin|[Hin|[Hin|Hin]]].
  - apply elem_of_discovery_cases in Hin.
    destruct Hin as [H|[H|[H|[H|H]]]]; discriminate H.
  - destruct (nth 0 argv "" =? "--redo")%string.
    + rewrite !elem_of_app, !elem_of_cons, elem_of_nil in Hin.
      destruct Hin as [[H|[H|[]]]|[Hin|[H|[H|[]]]]]; try discriminate H.
      apply elem_of_per_app_iff in Hin as (a & Ha & [H|[H|H]]); try discriminate H.
      exists a. split; [congruence | by left].
    + apply elem_of_per_app_iff in Hin as (a & Ha & [H|[H|H]]); try discriminate H.
      exists a. split; [congruence | by left].
  - apply elem_of_per_app_iff in Hin as (a & Ha & [H|[H|H]]); try discriminate H.
    exists a. split; [congruence | by right].
  - destruct (nth 0 argv "" =? "--redo")%string;
      rewrite ?elem_of_app, !elem_of_cons, elem_of_nil in Hin;
      decompose [or] Hin; try done; discriminate.
Qed.

(** X14. When [find] reports no application of the project, or reports
    the working directory itself (an [__init__.py] lies in it, which
    gives an empty line), the pattern file holds an empty pattern; it
    matches every label, and [django_apps] is empty: the second loop
    unwinds nothing. Where the names [find] reports are plain, the only
    migration directories the run deletes are then those of these
    names. *)
Theorem django_apps_empty_without_patterns w :
  my_apps_of w = [] ∨ "" ∈ my_apps_of w →
  django_apps_of w = [] ∧
  (plain_names (my_apps_of w) →
   ∀ argv p, RmRF p ∈ commands (run argv w) →
             ∃ app, p = [app; "migrations"] ∧ app ∈ words (my_apps_of w)).
Proof.
  intros Hmy.
  assert (django_apps_of w = []) as Hd.
  { unfold Shell.django_apps_of. apply elem_of_nil_inv. intros l Hl.
    apply elem_of_grep_v_f in Hl as [_ Hl].
    assert ("" ∈ patterns (my_apps_of w)) as Hp.
    { destruct Hmy as [->|H]; [by constructor | by apply elem_of_patterns]. }
    specialize (Hl "" Hp). by rewrite contains_empty in Hl. }
  split; [done|].
  intros _ argv p. rewrite commands_run. intros Hin.
  apply elem_of_script_RmRF in Hin as (app & -> & [Ha|Ha]).
  - by exists app.
  - rewrite Hd in Ha. by apply elem_of_nil in Ha.
Qed.

(** X15. Where the names [find] reports are plain, [django_apps] holds
    the labels of the status report in which no line of [my_apps]
    occurs, in the report's order. A name [find] reported is never
    among them, and neither is any label that merely contains such a
    name: no application is unwound by both loops. *)
Theorem django_apps_exclude_owned w :
  plain_names (my_apps_of w) →
  (∀ l, l ∈ django_apps_of w ↔
        l ∈ all_apps_of w ∧ ∀ a, a ∈ patterns (my_apps_of w) → contains a l = false) ∧
  (∀ a l, a ∈ my_apps_of w → contains a l = true → l ∉ django_apps_of w) ∧
  (∀ a, a ∈ my_apps_of w → a ∉ django_apps_of w) ∧
  django_apps_of w `sublist_of` all_apps_of w.
Proof.
  intros _.
  assert (∀ a l, a ∈ my_apps_of w → contains a l = true → l ∉ django_apps_of w) as H.
  { intros a l Ha Hc Hl. apply elem_of_grep_v_f in Hl as [_ Hl].
    rewrite (Hl a) in Hc by (by apply elem_of_patterns). done. }
  split; [intros l; apply elem_of_grep_v_f|].
  split; [exact H|].
  split; [intros a Ha; apply (H a a Ha), contains_refl|].
  apply sublist_filter.
Qed.

(** X16. [grep -o '^[a-z]*'] keeps of every line of the status report
    its leading run of lower-case letters, and drops the lines that
    start with anything else. So every label in [all_apps] and in
    [django_apps] is a non-empty word of lower-case letters, and a
    label with a digit or an underscore inside is cut at that
    character. *)
Theorem labels_are_lower_words w :
  (∀ a, a ∈ all_apps_of w ∨ a ∈ django_apps_of w → lower_word a) ∧
  (∀ lines a, a ∈ grep_o_lower lines ↔
              a ≠ "" ∧ ∃ line, line ∈ lines ∧ a = lower_prefix line) ∧
  (∀ line, String.prefix (lower_prefix line) line = true) ∧
  (∀ a (x : ascii) rest, lower_word a → is_lower x = false →
                         lower_prefix (a +:+ String x rest) = a).
Proof.
  assert (∀ a, a ∈ all_apps_of w → lower_word a) as H.
  { intros a (Hne & line & _ & ->)%elem_of_grep_o_lower.
    split; [done|]. apply lower_prefix_lower. }
  split; [|split; [|split]].
  - intros a [Ha|Ha]; [auto|].
    apply elem_of_grep_v_f in Ha as [Ha _]. auto.
  - intros lines a. apply elem_of_grep_o_lower.
  - apply lower_prefix_prefix.
  - intros a x rest [_ Ha] Hx. by apply lower_prefix_cut.
Qed.

(** *** What a run leaves in the working directory *)

Lemma now_run argv w : now (run argv w) = now (exec_all (script argv w) (boot w)).
Proof. apply run_straight. Qed.

Lemma history_run argv w :
  history (run argv w) = history (exec_all (script argv w) (boot w)).
Proof. apply run_straight. Qed.

Lemma script_ends argv w :
  ∃ front, script argv w =
           front ++ [Rm ["error.log"]; Echo "Finished execution successfully"].
Proof.
  unfold Shell.script, plan, finale. eexists.
  rewrite !(assoc_L (++)). done.
Qed.

Lemma rm_not_file (p : path) (fs : FS) : is_file (rm p fs).1 p = false.
Proof.
  unfold rm, is_file. destruct (fs !! p) as [[text|]|] eqn:E; cbn.
  - by rewrite lookup_delete_eq.
  - by rewrite E.
  - by rewrite E.
Qed.

Lemma rm_f_not_file (p : path) (fs : FS) : is_file (rm_f p fs).1 p = false.
Proof.
  unfold rm_f, is_file. destruct (fs !! p) as [[text|]|] eqn:E; cbn.
  - by rewrite lookup_delete_eq.
  - by rewrite E.
  - by rewrite E.
Qed.


(** X18. The first command of the framework in a run is the status
    report [./manage.py showmigrations], and it starts in a working
    directory without a file [db.sqlite3]: the labels in [all_apps] are
    always read with the file database gone. *)
Theorem status_report_runs_without_database (argv : list string) w :
  ∃ h1 e h2,
    history (run argv w) = h1 ++ e :: h2 ∧
    Forall (λ e', ∀ args, cmd e' ≠ Manage args ∧ cmd e' ≠ CreateSuperuser) h1 ∧
    cmd e = Manage ["showmigrations"] ∧
    is_file (files (before e)) ["db.sqlite3"] = false.
Proof.
  rewrite history_run. unfold Shell.script, discovery.
  rewrite <- !(assoc_L (++)). rewrite exec_all_app.
  set (s0 := exec_all (preamble _) (boot w)).
  assert (Forall (λ e', ∀ args, cmd e' ≠ Manage args ∧ cmd e' ≠ CreateSuperuser)
                 (history s0) ∧
          is_file (files (now s0)) ["db.sqlite3"] = false) as [Hh Hdb].
  { subst s0. unfold preamble. destruct (is_file (files w) [".env"]); cbn.
    - split; [|apply rm_f_not_file]. repeat constructor; done.
    - split; [|apply rm_f_not_file]. repeat constructor; done. }
  change ([Manage ["showmigrations"]; Find] ++ ?l)
    with ([Manage ["showmigrations"]] ++ Find :: l).
  rewrite exec_all_app.
  set (s1 := exec_all [Manage ["showmigrations"]] s0).
  assert (∀ cs s, ∃ h, history (exec_all cs s) = history s ++ h) as Hpre.
  { induction cs as [|c cs IH]; intros s.
    - exists []. by rewrite app_nil_r.
    - rewrite exec_all_cons. destruct (IH (exec c s).2) as [h ->].
      cbn. rewrite <- (assoc_L (++)). eauto. }
  destruct (Hpre (Find :: plan (nth 0 argv "" =? "--redo")%string
                       (my_apps_of w) (django_apps_of w)) s1) as [h2 ->].
  subst s1. cbn.
  eexists (history s0), _, h2. rewrite <- (assoc_L (++)). cbn.
  split; [done|]. split; [done|]. split; [done|]. exact Hdb.
Qed.

(** Deleting only takes away. *)
Lemma rm_f_subseteq (p : path) (fs : FS) : (rm_f p fs).1 ⊆ fs.
Proof. unfold rm_f. repeat case_match; cbn; try done. apply delete_subseteq. Qed.

Lemma rm_subseteq (p : path) (fs : FS) : (rm p fs).1 ⊆ fs.
Proof. unfold rm. repeat case_match; cbn; try done. apply delete_subseteq. Qed.

Lemma rm_rf_subseteq (p : path) (fs : FS) : (rm_rf p fs).1 ⊆ fs.
Proof. unfold rm_rf. repeat case_match; cbn; try done. apply map_filter_subseteq. Qed.

Lemma rm_rf_no_dir (p : path) (fs : FS) : (rm_rf p fs).1 !! p ≠ Some Dir.
Proof.
  unfold rm_rf. destruct (fs !! p) as [[text|]|] eqn:E; cbn; try congruence.
  rewrite map_lookup_filter_Some. intros [_ H]. by apply H.
Qed.

Lemma exec_all_subseteq cs s :
  (∀ c env w, c ∈ cs → files (after (sem c env w)) ⊆ files w) →
  files (now (exec_all cs s)) ⊆ files (now s).
Proof.
  revert s. induction cs as [|c cs IH]; intros s Hcs; [done|].
  rewrite exec_all_cons. etrans.
  - apply IH. intros c' env w Hc'. apply Hcs. by right.
  - cbn. apply Hcs. by left.
Qed.

(** With a framework whose rollbacks write nothing, every command of a
    run without [--redo] takes files away at most. *)
Lemma plain_sem_subseteq argv w0 c env w :
  rollback_writes_nothing manage →
  nth 0 argv "" ≠ "--redo" →
  c ∈ script argv w0 →
  files (after (sem c env w)) ⊆ files w.
Proof.
  intros [Hshow Hzero] Hredo Hc.
  assert (∀ say apps, c ∈ per_app say apps → files (after (sem c env w)) ⊆ files w) as Hper.
  { intros say apps (app & _ & [->|[->| ->]])%elem_of_per_app_iff; cbn.
    - done.
    - apply Hzero.
    - apply rm_rf_subseteq. }
  apply elem_of_plain_script in Hc; [|done].
  destruct Hc as [Hc|[Hc|[Hc|[->| ->]]]].
  - apply elem_of_discovery_cases in Hc.
    destruct Hc as [->|[->|[->|[->| ->]]]]; cbn;
      [reflexivity | reflexivity | apply rm_f_subseteq | apply Hshow | reflexivity].
  - by apply (Hper removing (words (my_apps_of w0))).
  - by apply (Hper undoing (words (django_apps_of w0))).
  - cbn. apply rm_subseteq.
  - reflexivity.
Qed.

(** X19. A run without [--redo], with a framework whose status report
    and rollbacks write nothing below the working directory, only takes
    away: every file and directory there is afterwards was there
    before, unchanged. *)
Theorem plain_run_only_deletes (argv : list string) w :
  rollback_writes_nothing manage →
  nth 0 argv "" ≠ "--redo" →
  files (now (run argv w)) ⊆ files w.
Proof.
  intros Hfw Hredo. rewrite now_run.
  apply (exec_all_subseteq (script argv w) (boot w)).
  intros c env w' Hc. by apply (plain_sem_subseteq argv w).
Qed.


End WithFramework.

End ReadingsProofs.

(** ** The readings on the sample framework; what the base-branch step prints *)

Module SampleReadings.
Import Str Fs Words Shell FsFacts ShellFacts Readings ReadingsProofs.

Local Abbreviation run := (run Sample.manage Sample.create_superuser).
Local Abbreviation my_apps_of := (my_apps_of Sample.manage Sample.create_superuser).
Local Abbreviation django_apps_of := (django_apps_of Sample.manage Sample.create_superuser).

Lemma sample_rollback_writes_nothing : rollback_writes_nothing Sample.manage.
Proof.
  split.
  - intros env w. reflexivity.
  - intros env app w. cbn. case_bool_decide; reflexivity.
Qed.

Lemma sample_unwound :
  my_apps_of Sample.start = ["blog"] ∧
  django_apps_of Sample.start = ["auth"; "legacy"].
Proof. split; by vm_compute. Qed.

Lemma plain_run_builds_nothing_witness :
  nth 0 ["-v"; "--redo"] "" ≠ "--redo" ∧
  run ["-v"; "--redo"] Sample.start = run [] Sample.start.
Proof.
  assert (nth 0 ["-v"; "--redo"] "" ≠ "--redo") as Hne by (cbn; discriminate).
  split; [exact Hne|].
  apply (plain_run_builds_nothing Sample.manage Sample.create_superuser
           ["-v"; "--redo"] Sample.start Hne).
Defined.

Lemma django_apps_empty_without_patterns_witness :
  my_apps_of (World ∅ Sample.known) = [] ∧
  django_apps_of (World ∅ Sample.known) = [].
Proof.
  assert (my_apps_of (World ∅ Sample.known) = []) as Hmy by (by vm_compute).
  split; [exact Hmy|].
  apply (django_apps_empty_without_patterns Sample.manage Sample.create_superuser
           (World ∅ Sample.known) (or_introl Hmy)).
Defined.

Lemma django_apps_exclude_owned_witness :
  plain_names (my_apps_of Sample.start) ∧
  "blog" ∉ django_apps_of Sample.start.
Proof.
  assert (plain_names (my_apps_of Sample.start)) as Hplain by (by vm_compute).
  split; [exact Hplain|].
  destruct (django_apps_exclude_owned Sample.manage Sample.create_superuser
              Sample.start Hplain) as (_ & _ & H & _).
  apply H. destruct sample_unwound as [-> _]. by left.
Defined.

Lemma plain_run_only_deletes_witness :
  files (now (run [] Sample.start)) ⊆ files Sample.start.
Proof.
  apply (plain_run_only_deletes Sample.manage Sample.create_superuser [] Sample.start).
  - apply sample_rollback_writes_nothing.
  - cbn. discriminate.
Defined.


End SampleReadings.

Module BaseBranchOutput.
Import Str StrFacts BaseBranch.

(** X21. The step is silent exactly when it accepts. When it rejects
    it exits 1 after printing a single line, which starts with
    [Error: Pull requests to], names the base branch and, for [dev],
    lists each of the four allowed head branches. *)
Theorem check_base_branch_reports (base_branch head_branch : string) :
  (accepted base_branch head_branch ↔
   stdout (check_base_branch base_branch head_branch) = []) ∧
  (¬ accepted base_branch head_branch →
   exit_status (check_base_branch base_branch head_branch) = 1%Z ∧
   (base_branch = "production" ∨ base_branch = "dev") ∧
   ∃ line, stdout (check_base_branch base_branch head_branch) = [line] ∧
           String.prefix ("Error: Pull requests to " +:+ base_branch +:+ " branch") line
             = true ∧
           (base_branch = "dev" →
            ∀ a, a ∈ allowed_head_branches → contains a line = true)).
Proof.
  unfold accepted, check_base_branch.
  destruct (String.eqb_spec base_branch "production") as [->|Hp].
  - destruct (String.eqb head_branch "dev"); cbn.
    + split; [done|]. intros H. by destruct H.
    + split; [split; done|]. intros _. split; [done|]. split; [by left|].
      eexists. split; [done|]. split; [reflexivity|]. intros [=].
  - destruct (String.eqb_spec base_branch "dev") as [->|Hd].
    + destruct (contains _ _); cbn.
      * split; [done|]. intros H. by destruct H.
      * split; [split; done|]. intros _. split; [done|]. split; [by right|].
        eexists. split; [done|]. split; [reflexivity|]. intros _ a Ha.
        unfold allowed_head_branches in Ha.
        rewrite !elem_of_cons, elem_of_nil in Ha.
        destruct Ha as [->|[->|[->|[->|[]]]]]; reflexivity.
    + cbn. split; [done|]. intros H. by destruct H.
Qed.

End BaseBranchOutput.

(** ** The test workflows *)

Module TestWorkflowsProofs.
Import Fs Shell TestWorkflows.

Section WithTools.

Context {Ext : Type}.
Variable tool : list string → world Ext → result Ext.
Variable errexit : bool.

Local Abbreviation in_sequence := (in_sequence tool errexit).
Local Abbreviation install_dependencies := (install_dependencies tool errexit).
Local Abbreviation job := (job tool errexit).
Local Abbreviation dev_test_django := (dev_test_django tool errexit).
Local Abbreviation production_test_django := (production_test_django tool errexit).

(** The commands a script ran are the first ones of the script. *)
Lemma ran_prefix (cmds : list (list string)) (w : world Ext) :
  ran (in_sequence cmds w) `prefix_of` cmds.
Proof.
  revert w. induction cmds as [|c cmds IH]; intros w; [done|].
  cbn [TestWorkflows.in_sequence].
  destruct (errexit && negb (status (tool c w) =? 0)%Z).
  - cbn. by apply prefix_cons, prefix_nil.
  - destruct cmds as [|c' cmds]; [done|]. cbn [ran]. apply prefix_cons, IH.
Qed.

(** Under [-e] a script exits 0 only when every command ran. *)
Lemma ran_all (cmds : list (list string)) (w : world Ext) :
  errexit = true → step_status (in_sequence cmds w) = 0%Z →
  ran (in_sequence cmds w) = cmds.
Proof.
  intros ->. revert w. induction cmds as [|c cmds IH]; intros w; [done|].
  cbn [TestWorkflows.in_sequence andb].
  destruct (Z.eqb_spec (status (tool c w)) 0) as [E|E]; cbn [negb].
  - destruct cmds as [|c' cmds]; [done|]. cbn [ran step_status].
    intros H. by rewrite IH.
  - cbn. done.
Qed.

(** X22. On a checkout without [manage.py] both test jobs succeed
    without running a single program, whatever the runner's shell
    options, and leave the workspace as it is; the production workflow
    says so in one line, the development one prints nothing. *)
Theorem jobs_pass_without_manage_py (w : world Ext) :
  is_file (files w) ["manage.py"] = false →
  dev_test_django w = Step w 0 [] [] ∧
  production_test_django w = Step w 0 [] [notice].
Proof.
  intros H.
  unfold TestWorkflows.dev_test_django, TestWorkflows.production_test_django,
    TestWorkflows.job, TestWorkflows.install_dependencies,
    run_tests, run_tests_production.
  rewrite H. cbn. rewrite H. done.
Qed.

(** X23. With the runner's [bash -e], a job exits 0 only when all six
    installation commands have run; and when the installation step
    fails, the job ends there with that status: the tests are not
    run. The commands that ran are always the first ones of the step,
    in order. *)
Theorem install_failure_stops_job (tests : world Ext → @step Ext) (w : world Ext) :
  errexit = true →
  is_file (files w) ["manage.py"] = true →
  ran (install_dependencies w) `prefix_of` install_commands ∧
  (step_status (job tests w) = 0%Z → ran (install_dependencies w) = install_commands) ∧
  (step_status (install_dependencies w) ≠ 0%Z →
   job tests w = install_dependencies w ∧
   step_status (job tests w) ≠ 0%Z ∧
   test_command ∉ ran (job tests w)).
Proof.
  intros He Hf.
  assert (ran (install_dependencies w) `prefix_of` install_commands) as Hpre.
  { unfold TestWorkflows.install_dependencies. rewrite Hf. apply ran_prefix. }
  split; [exact Hpre|]. split.
  - unfold TestWorkflows.job.
    destruct (Z.eqb_spec (step_status (install_dependencies w)) 0) as [E|E].
    + intros _. revert E. unfold TestWorkflows.install_dependencies. rewrite Hf.
      by apply ran_all.
    + intros H. done.
  - intros Hne. unfold TestWorkflows.job.
    destruct (Z.eqb_spec (step_status (install_dependencies w)) 0) as [E|E]; [done|].
    split; [done|]. split; [done|].
    intros Hin. destruct Hpre as [k Hk].
    assert (test_command ∈ install_commands) as Hbad.
    { rewrite Hk. apply elem_of_app. by left. }
    unfold install_commands, test_command in Hbad.
    rewrite !elem_of_cons, elem_of_nil in Hbad.
    decompose [or] Hbad; try done; discriminate.
Qed.

End WithTools.

Lemma jobs_pass_without_manage_py_witness :
  production_test_django SampleTools.tool true SampleTools.empty_workspace
  = Step SampleTools.empty_workspace 0 [] [notice].
Proof.
  apply (jobs_pass_without_manage_py SampleTools.tool true SampleTools.empty_workspace).
  reflexivity.
Defined.

Lemma install_failure_stops_job_witness :
  step_status (install_dependencies SampleTools.tool true SampleTools.workspace) = 4%Z ∧
  test_command ∉ ran (dev_test_django SampleTools.tool true SampleTools.workspace).
Proof.
  assert (step_status (install_dependencies SampleTools.tool true SampleTools.workspace)
          = 4%Z) as H4 by (by vm_compute).
  split; [exact H4|].
  apply (install_failure_stops_job SampleTools.tool true
           (run_tests SampleTools.tool true) SampleTools.workspace eq_refl).
  - by vm_compute.
  - rewrite H4. discriminate.
Defined.

End TestWorkflowsProofs.
